(** * The streaming answer decoder of the knowledge-base API client

    Shallow embedding of [knowledgeBaseApi.queryKnowledgeBaseStream]
    (frontend/src/api/knowledgebase.ts) and the properties of its
    Server-Sent-Events line framer.

    Modelling conventions.
    - A JavaScript string is the list of its UTF-16 code units, each a [Z].
    - A byte chunk ([Uint8Array]) is a [list byte].
    - A call of one of the three callbacks is recorded in the trace;
      [reader.read()] is recorded too, so that the interleaving of reads
      and callbacks is visible.  In the main model the callbacks return
      normally; [Throwing] is the same function with callbacks that may
      throw, and agrees with the main model when they do not.
    - [try]/[catch] is an exception monad over that trace.
    - A response body is a finite sequence of chunks closed by either the
      end-of-stream signal or a read failure.

    The development also covers the chart data and the delete handler of
    the interview history panel, and the addresses of the knowledge-base
    endpoints. *)

From Stdlib Require Import List ZArith Lia Bool Strings.Byte String Ascii Sorted.
From Stdlib Require DecimalN.
Import ListNotations.
Local Open Scope Z_scope.

(* ================================================================== *)
(** ** JavaScript string primitives used by the decoder                *)
(* ================================================================== *)

Module Js.

Definition jsstring := list Z.

(** An ASCII literal as a JavaScript string. *)
Definition str (s : string) : jsstring :=
  map (fun a => Z.of_N (N_of_ascii a)) (list_ascii_of_string s).

Definition LF : Z := 10.

(** Code units removed by [String.prototype.trim]: ECMAScript WhiteSpace
    and LineTerminator. *)
Definition is_whitespace (c : Z) : bool :=
  ((9 <=? c) && (c <=? 13))
  || (c =? 0x20) || (c =? 0xA0) || (c =? 0x1680)
  || ((0x2000 <=? c) && (c <=? 0x200A))
  || (c =? 0x2028) || (c =? 0x2029) || (c =? 0x202F)
  || (c =? 0x205F) || (c =? 0x3000) || (c =? 0xFEFF).

Fixpoint trimStart (s : jsstring) : jsstring :=
  match s with
  | c :: r => if is_whitespace c then trimStart r else s
  | [] => []
  end.

Definition trimEnd (s : jsstring) : jsstring := rev (trimStart (rev s)).

Definition trim (s : jsstring) : jsstring := trimEnd (trimStart s).

(** [s.startsWith(p)] *)
Fixpoint startsWith (p s : jsstring) : bool :=
  match p, s with
  | [], _ => true
  | _ :: _, [] => false
  | a :: p', b :: s' => (a =? b) && startsWith p' s'
  end.

(** [s.substring(n)] *)
Definition substring (n : nat) (s : jsstring) : jsstring := skipn n s.

(** Truthiness of a string in a condition: non-empty. *)
Definition truthy (s : jsstring) : bool :=
  match s with [] => false | _ :: _ => true end.

(** Puts a code unit in front of the first piece of a split. *)
Definition cons_head (c : Z) (pieces : list jsstring) : list jsstring :=
  match pieces with
  | l :: ls => (c :: l) :: ls
  | [] => [[c]]
  end.

(** [s.split('\n')]: never empty, [''.split('\n')] is [['']]. *)
Fixpoint split (s : jsstring) : list jsstring :=
  match s with
  | [] => [[]]
  | c :: r => if c =? LF then [] :: split r else cons_head c (split r)
  end.

(** The inverse of [split]: [pieces.join('\n')]. *)
Fixpoint join (pieces : list jsstring) : jsstring :=
  match pieces with
  | [] => []
  | [l] => l
  | l :: ls => l ++ LF :: join ls
  end.

(** Decimal rendering of a non-negative integer, as [String(n)] gives. *)
Fixpoint digits (u : Decimal.uint) : jsstring :=
  match u with
  | Decimal.Nil => []
  | Decimal.D0 r => 48 :: digits r
  | Decimal.D1 r => 49 :: digits r
  | Decimal.D2 r => 50 :: digits r
  | Decimal.D3 r => 51 :: digits r
  | Decimal.D4 r => 52 :: digits r
  | Decimal.D5 r => 53 :: digits r
  | Decimal.D6 r => 54 :: digits r
  | Decimal.D7 r => 55 :: digits r
  | Decimal.D8 r => 56 :: digits r
  | Decimal.D9 r => 57 :: digits r
  end.

Definition number_to_string (n : N) : jsstring := digits (N.to_uint n).

(** [hay.includes(needle)] *)
Fixpoint includes (needle hay : jsstring) : bool :=
  startsWith needle hay
  || match hay with
     | [] => false
     | _ :: hay' => includes needle hay'
     end.

End Js.
Import Js.

(* ================================================================== *)
(** ** [TextDecoder]: the platform's streaming UTF-8 decoder           *)
(* ================================================================== *)

(** [new TextDecoder()] decodes UTF-8, is not fatal and does not ignore the
    byte order mark.  The model follows the Encoding Standard's UTF-8
    decoder, one byte at a time. *)
Module TextDecoder.

Record utf8 := {
  code_point : Z;
  bytes_seen : Z;
  bytes_needed : Z;
  lower_boundary : Z;
  upper_boundary : Z
}.

Definition utf8_init : utf8 :=
  {| code_point := 0; bytes_seen := 0; bytes_needed := 0;
     lower_boundary := 0x80; upper_boundary := 0xBF |}.

Inductive result := Continue | CodePoint (cp : Z) | DecodeError.

(** A byte read while no sequence is open. *)
Definition lead (b : Z) : utf8 * result :=
  if b <=? 0x7F then (utf8_init, CodePoint b)
  else if (0xC2 <=? b) && (b <=? 0xDF) then
    ({| code_point := Z.land b 0x1F; bytes_seen := 0; bytes_needed := 1;
        lower_boundary := 0x80; upper_boundary := 0xBF |}, Continue)
  else if (0xE0 <=? b) && (b <=? 0xEF) then
    ({| code_point := Z.land b 0xF; bytes_seen := 0; bytes_needed := 2;
        lower_boundary := if b =? 0xE0 then 0xA0 else 0x80;
        upper_boundary := if b =? 0xED then 0x9F else 0xBF |}, Continue)
  else if (0xF0 <=? b) && (b <=? 0xF4) then
    ({| code_point := Z.land b 0x7; bytes_seen := 0; bytes_needed := 3;
        lower_boundary := if b =? 0xF0 then 0x90 else 0x80;
        upper_boundary := if b =? 0xF4 then 0x8F else 0xBF |}, Continue)
  else (utf8_init, DecodeError).

(** The handler.  A byte outside the expected range closes the open
    sequence with an error and is read again as a lead byte. *)
Definition handler (st : utf8) (b : Z) : utf8 * list result :=
  if bytes_needed st =? 0 then
    let (st', r) := lead b in (st', [r])
  else if negb ((lower_boundary st <=? b) && (b <=? upper_boundary st)) then
    let (st', r) := lead b in (st', [DecodeError; r])
  else
    let cp := Z.lor (Z.shiftl (code_point st) 6) (Z.land b 0x3F) in
    let seen := bytes_seen st + 1 in
    if seen =? bytes_needed st then (utf8_init, [CodePoint cp])
    else ({| code_point := cp; bytes_seen := seen;
             bytes_needed := bytes_needed st;
             lower_boundary := 0x80; upper_boundary := 0xBF |}, [Continue]).

(** The decoder object: the UTF-8 state and the "BOM seen" flag. *)
Record t := { state : utf8; bom_seen : bool }.

Definition create : t := {| state := utf8_init; bom_seen := false |}.

(** A scalar value as UTF-16 code units. *)
Definition code_units (cp : Z) : jsstring :=
  if cp <? 0x10000 then [cp]
  else
    let v := cp - 0x10000 in
    [0xD800 + Z.shiftr v 10; 0xDC00 + Z.land v 0x3FF].

(** Serialising the decoder's output: errors become U+FFFD, and the first
    scalar value of the stream is dropped when it is the byte order mark. *)
Fixpoint serialize (bom : bool) (rs : list result) : bool * jsstring :=
  match rs with
  | [] => (bom, [])
  | Continue :: rs' => serialize bom rs'
  | r :: rs' =>
      let cp := match r with CodePoint cp => cp | _ => 0xFFFD end in
      let (bom', out) := serialize true rs' in
      (bom', if negb bom && (cp =? 0xFEFF) then out else code_units cp ++ out)
  end.

Definition byte_value (b : byte) : Z := Z.of_N (Byte.to_N b).

Definition decode_byte (d : t) (b : byte) : t * jsstring :=
  let (st', rs) := handler (state d) (byte_value b) in
  let (bom', out) := serialize (bom_seen d) rs in
  ({| state := st'; bom_seen := bom' |}, out).

(** [decoder.decode(value, { stream: true })]: the bytes are consumed in
    order; an unfinished sequence stays in the decoder. *)
Fixpoint decode (d : t) (value : list byte) : t * jsstring :=
  match value with
  | [] => (d, [])
  | b :: value' =>
      let (d1, out1) := decode_byte d b in
      let (d2, out2) := decode d1 value' in
      (d2, out1 ++ out2)
  end.

End TextDecoder.

Import TextDecoder.

(* ================================================================== *)
(** ** Values, the environment and the observable trace                *)
(* ================================================================== *)

(** What a [throw] or a rejected promise carries: an object made by
    [new Error(message)], or a failure raised by the platform. *)
Inductive thrown :=
| ErrorObject (message : jsstring)
| Rejection (name message : jsstring).

(** A parsed JSON document: numbers restricted to integers, an object
    given by its properties in order. *)
#[local] Set Warnings "-register-all".
Inductive json :=
| JNull
| JBool (b : bool)
| JNumber (n : Z)
| JString (s : jsstring)
| JArray (items : list json)
| JObject (fields : list (jsstring * json)).

Definition jsstring_eqb (a b : jsstring) : bool :=
  Nat.eqb (List.length a) (List.length b) && startsWith a b.

(** [v.message]; [None] is [undefined]. *)
Definition get_message (v : json) : option json :=
  match v with
  | JObject fields =>
      match find (fun kv => jsstring_eqb (fst kv) (str "message")) fields with
      | Some kv => Some (snd kv)
      | None => None
      end
  | _ => None
  end.

(** Truthiness of a value in a condition. *)
Definition json_truthy (v : option json) : bool :=
  match v with
  | None | Some JNull => false
  | Some (JBool b) => b
  | Some (JNumber n) => negb (n =? 0)
  | Some (JString s) => truthy s
  | Some (JArray _) | Some (JObject _) => true
  end.

Definition int_to_string (n : Z) : jsstring :=
  match n with
  | Zneg p => 45 :: number_to_string (Npos p)
  | _ => number_to_string (Z.to_N n)
  end.

(** [String(v)], which [new Error(v)] applies to its argument. *)
Fixpoint to_string (v : json) : jsstring :=
  match v with
  | JNull => str "null"
  | JBool true => str "true"
  | JBool false => str "false"
  | JNumber n => int_to_string n
  | JString s => s
  | JArray items =>
      (fix joined (xs : list json) : jsstring :=
         match xs with
         | [] => []
         | x :: rest =>
             match x with JNull => [] | _ => to_string x end
             ++ match rest with [] => [] | _ :: _ => 44 :: joined rest end
         end) items
  | JObject _ => str "[object Object]"
  end.

(** The body stream as the reader delivers it: chunks, closed by the
    end-of-stream signal or by a read that fails. *)
Inductive reader :=
| Chunk (value : list byte) (rest : reader)
| EndOfStream
| ReadFailure (e : thrown).

Inductive json_outcome :=
| JsonRejects (e : thrown)
| JsonResolves (v : json).

Record response := {
  status : N;
  json_body : json_outcome;
  body : option reader
}.

(** [response.ok]: the status is in the range 200-299. *)
Definition ok (r : response) : bool :=
  ((200 <=? status r) && (status r <=? 299))%N.

Inductive fetch_outcome :=
| FetchRejects (e : thrown)
| FetchResolves (r : response).

(** What the function does to its environment, in order. *)
Inductive event :=
| ReaderRead
| OnMessage (chunk : jsstring)
| OnComplete
| OnError (message : jsstring).

(** *** Exceptions over a trace *)

Inductive completion (A : Type) :=
| Normal (a : A)
| Throw (e : thrown).
Arguments Normal {A} a.
Arguments Throw {A} e.

Definition M (A : Type) : Type := (list event * completion A)%type.

Definition ret {A} (a : A) : M A := ([], Normal a).

Definition throw {A} (e : thrown) : M A := ([], Throw e).

Definition bind {A B} (m : M A) (k : A -> M B) : M B :=
  match m with
  | (t, Normal a) => let (t', r) := k a in (t ++ t', r)
  | (t, Throw e) => (t, Throw e)
  end.

Definition try_catch {A} (m : M A) (handler : thrown -> M A) : M A :=
  match m with
  | (t, Throw e) => let (t', r) := handler e in (t ++ t', r)
  | (t, Normal a) => (t, Normal a)
  end.

Definition call (ev : event) : M unit := ([ev], Normal tt).

Notation "x <- m ;; k" := (bind m (fun x => k))
  (at level 61, m at next level, right associativity).
Notation "m ;; k" := (bind m (fun _ => k))
  (at level 61, right associativity).

Fixpoint for_of {A} (xs : list A) (body : A -> M unit) : M unit :=
  match xs with
  | [] => ret tt
  | x :: rest => body x ;; for_of rest body
  end.

Definition await_fetch (o : fetch_outcome) : M response :=
  match o with
  | FetchRejects e => throw e
  | FetchResolves r => ret r
  end.

Definition await_json (o : json_outcome) : M json :=
  match o with
  | JsonRejects e => throw e
  | JsonResolves v => ret v
  end.

(* ================================================================== *)
(** ** [queryKnowledgeBaseStream]                                      *)
(* ================================================================== *)

Definition data_prefix : jsstring := Eval cbv in str "data:".

(** [`请求失败 (${status})`] *)
Definition request_failed (status : N) : jsstring :=
  [0x8BF7; 0x6C42; 0x5931; 0x8D25; 0x20; 0x28]
    ++ number_to_string status ++ [0x29].

(** ['无法获取响应流'] *)
Definition no_response_stream : jsstring :=
  [0x65E0; 0x6CD5; 0x83B7; 0x53D6; 0x54CD; 0x5E94; 0x6D41].

(** [lines.pop()]: the last element and the array without it. *)
Definition pop (lines : list jsstring) : option jsstring * list jsstring :=
  match lines with
  | [] => (None, [])
  | _ :: _ => (Some (last lines []), removelast lines)
  end.

(** [x || ''] *)
Definition or_empty (x : option jsstring) : jsstring :=
  match x with
  | Some s => if truthy s then s else []
  | None => []
  end.

(** The body of the [for (const line of lines)] loop. *)
Definition dispatch (line : jsstring) : M unit :=
  if startsWith data_prefix line then
    let content := trim (substring 5 line) in
    if truthy content then call (OnMessage content) else ret tt
  else ret tt.

(** The block after the read loop, on the remaining buffer. *)
Definition flush (buffer : jsstring) : M unit :=
  if truthy (trim buffer) then
    if startsWith data_prefix buffer then
      let content := trim (substring 5 buffer) in
      if truthy content then call (OnMessage content) else ret tt
    else ret tt
  else ret tt.

(** The variables that live across iterations of the read loop. *)
Record loop_state := { decoder : TextDecoder.t; buffer : jsstring }.

Definition loop_init : loop_state :=
  {| decoder := TextDecoder.create; buffer := [] |}.

(** One chunk: decode, append, split, keep the last piece.  Returns the
    new state and the complete lines. *)
Definition receive (st : loop_state) (value : list byte)
  : loop_state * list jsstring :=
  let (d, text) := decode (decoder st) value in
  let buffer := buffer st ++ text in
  let (popped, lines) := pop (split buffer) in
  ({| decoder := d; buffer := or_empty popped |}, lines).

(** The [while (true)] loop; its value is the buffer at [break]. *)
Fixpoint read_loop (rd : reader) (st : loop_state) : M jsstring :=
  match rd with
  | ReadFailure e => call ReaderRead ;; throw e
  | EndOfStream => call ReaderRead ;; call OnComplete ;; ret (buffer st)
  | Chunk value rest =>
      call ReaderRead ;;
      let (st', lines) := receive st value in
      for_of lines dispatch ;;
      read_loop rest st'
  end.

(** The [try] block. *)
Definition try_block (net : fetch_outcome) : M unit :=
  response <- await_fetch net ;;
  (if negb (ok response) then
     try_catch
       (errorData <- await_json (json_body response) ;;
        if json_truthy (Some errorData)
           && json_truthy (get_message errorData)
        then
          match get_message errorData with
          | Some m => throw (ErrorObject (to_string m))
          | None => throw (ErrorObject [])
          end
        else ret tt)
       (fun _ => ret tt) ;;
     throw (ErrorObject (request_failed (status response)))
   else ret tt) ;;
  reader <- match body response with
            | Some rd => ret rd
            | None => throw (ErrorObject no_response_stream)
            end ;;
  buffer <- read_loop reader loop_init ;;
  flush buffer.

Section Query.

(** [getErrorMessage] is imported from ./request.  Nothing here depends
    on how it is written: it is a parameter of the model. *)
Variable getErrorMessage : thrown -> jsstring.

(** The request only determines what the server answers; the model takes
    the outcome of [fetch] as its input and returns the trace. *)
Definition queryKnowledgeBaseStream (net : fetch_outcome) : list event :=
  fst (try_catch (try_block net)
                 (fun error => call (OnError (getErrorMessage error)))).

End Query.

(** *** Reading a trace *)

Definition is_callback (ev : event) : bool :=
  match ev with ReaderRead => false | _ => true end.

Definition callbacks (t : list event) : list event := filter is_callback t.

Fixpoint messages (t : list event) : list jsstring :=
  match t with
  | [] => []
  | OnMessage m :: t' => m :: messages t'
  | _ :: t' => messages t'
  end.

Definition is_read (ev : event) : bool :=
  match ev with ReaderRead => true | _ => false end.

Definition is_complete (ev : event) : bool :=
  match ev with OnComplete => true | _ => false end.

Definition is_error (ev : event) : bool :=
  match ev with OnError _ => true | _ => false end.

Definition count (p : event -> bool) (t : list event) : nat :=
  List.length (filter p t).

(** *** Streams *)

Fixpoint reader_of (chunks : list (list byte)) (close : reader) : reader :=
  match chunks with
  | [] => close
  | c :: cs => Chunk c (reader_of cs close)
  end.

Definition bytes (s : string) : list byte := list_byte_of_string s.

(** A successful response that streams [rd]. *)
Definition streaming_response (rd : reader) : response :=
  {| status := 200; json_body := JsonResolves JNull; body := Some rd |}.

Definition streaming (rd : reader) : fetch_outcome :=
  FetchResolves (streaming_response rd).

(** The same response with another body stream. *)
Definition with_body (r : response) (rd : reader) : response :=
  {| status := status r; json_body := json_body r; body := Some rd |}.

(** The events after the first [onError]. *)
Fixpoint after_error (t : list event) : list event :=
  match t with
  | [] => []
  | OnError _ :: t' => t'
  | _ :: t' => after_error t'
  end.

(** Newline-terminated lines as one text. *)
Definition lines_text (lines : list jsstring) : jsstring :=
  List.concat (map (fun l => l ++ [LF]) lines).





(** What holds of a string handed to [onMessage], [lines] being the lines
    of the stream: it is not empty, has no newline, neither begins nor
    ends with whitespace, and is what remains of one of the lines that
    start with [data:] once the five units of the prefix are removed and
    the rest is trimmed. *)
Definition is_payload_of (lines : list jsstring) (p : jsstring) : Prop :=
  p <> []
  /\ ~ In LF p
  /\ (forall c, hd_error p = Some c -> is_whitespace c = false)
  /\ (forall c, hd_error (rev p) = Some c -> is_whitespace c = false)
  /\ exists line,
       In line lines
       /\ startsWith data_prefix line = true
       /\ p = trim (substring 5 line).

(** The bytes of a line of ASCII text with its terminating newline. *)
Definition line_bytes (s : string) : list byte := bytes s ++ [x0a].

(** The state of the loop once the given chunks have been processed. *)
Definition state_after (chunks : list (list byte)) : loop_state :=
  fold_left (fun st value => fst (receive st value)) chunks loop_init.

Definition id_message (e : thrown) : jsstring :=
  match e with
  | ErrorObject m => m
  | Rejection _ m => m
  end.

(** The number of [reader.read()] calls: one per chunk and one for the
    closing signal. *)
Fixpoint reads_needed (rd : reader) : nat :=
  match rd with
  | Chunk _ rest => S (reads_needed rest)
  | _ => 1%nat
  end.

(** *** Sample inputs *)

Definition sample_frames : list (list byte) :=
  [bytes "data: hel"; line_bytes "lo" ++ line_bytes "data: world";
   line_bytes "data:   "; line_bytes ": note"].

Definition sample_comments : list (list byte) :=
  [bytes ": keep"; line_bytes "-alive";
   line_bytes "event: done" ++ line_bytes ""; bytes "id: 7"].

Definition unparsable_500 : response :=
  {| status := 500;
     json_body := JsonRejects (Rejection (str "SyntaxError") (str "bad JSON"));
     body := None |}.



(** *** The frame rule in the words of the specification

    A line is a data frame when it begins with the literal prefix; its
    payload is the remainder, trimmed; an empty payload is not forwarded. *)

Fixpoint strip_prefix (p s : jsstring) : option jsstring :=
  match p, s with
  | [], _ => Some s
  | _ :: _, [] => None
  | a :: p', b :: s' => if a =? b then strip_prefix p' s' else None
  end.

Definition frame_payload (line : jsstring) : option jsstring :=
  match strip_prefix data_prefix line with
  | Some rest => let p := trim rest in if truthy p then Some p else None
  | None => None
  end.

Definition payloads (lines : list jsstring) : list jsstring :=
  flat_map (fun l => match frame_payload l with Some p => [p] | None => [] end)
           lines.

(** The text a reader delivers once decoded, and how the reader closes. *)
Fixpoint stream_text (d : TextDecoder.t) (rd : reader) : jsstring :=
  match rd with
  | Chunk value rest =>
      let (d', text) := decode d value in text ++ stream_text d' rest
  | _ => []
  end.

Fixpoint stream_failure (rd : reader) : option thrown :=
  match rd with
  | Chunk _ rest => stream_failure rest
  | EndOfStream => None
  | ReadFailure e => Some e
  end.

(** The complete lines and the unterminated remainder of a text. *)
Definition complete_lines (text : jsstring) : list jsstring :=
  removelast (split text).

Definition residual (text : jsstring) : jsstring := last (split text) [].

(** The lines of the body of a response once decoded, the unterminated
    last one included; none when there is no body to read. *)
Definition stream_lines (net : fetch_outcome) : list jsstring :=
  match net with
  | FetchResolves r =>
      match body r with
      | Some rd => split (stream_text create rd)
      | None => []
      end
  | FetchRejects _ => []
  end.

Definition sample_open_line : list (list byte) :=
  [line_bytes "data: a"; bytes "data: b"].

(** *** Carriage returns and further sample inputs *)




Definition sample_open_end : list (list byte) :=
  [bytes "data: o"; line_bytes "ne"; line_bytes "event: x"; bytes "data: tw";
   bytes "o"].



Definition network_error : thrown :=
  Rejection (str "TypeError") (str "network error").

(* ================================================================== *)
(** ** Callbacks that may throw                                        *)
(* ================================================================== *)

(** The same function with callbacks that can end in an exception.  A
    callback is given by what it does at each call: return ([None]) or
    throw, as a function of its argument and of everything that has
    happened before the call.  [onMessage] and [onComplete] are called
    inside the outer [try], so what they throw reaches its [catch];
    [onError] is called from the [catch] clause itself. *)
Module Throwing.

Record callbacks := {
  onMessage : list event -> jsstring -> option thrown;
  onComplete : list event -> option thrown;
  onError : list event -> jsstring -> option thrown
}.

(** A computation reads the history and adds its own events to it. *)
Definition M (A : Type) : Type :=
  list event -> (list event * completion A)%type.

Definition ret {A} (a : A) : M A := fun _ => ([], Normal a).

Definition throw {A} (e : thrown) : M A := fun _ => ([], Throw e).

Definition bind {A B} (m : M A) (k : A -> M B) : M B :=
  fun history =>
    match m history with
    | (t, Normal a) => let (t', r) := k a (history ++ t) in (t ++ t', r)
    | (t, Throw e) => (t, Throw e)
    end.

Definition try_catch {A} (m : M A) (handler : thrown -> M A) : M A :=
  fun history =>
    match m history with
    | (t, Throw e) =>
        let (t', r) := handler e (history ++ t) in (t ++ t', r)
    | (t, Normal a) => (t, Normal a)
    end.

(** [await reader.read()], recorded. *)
Definition read : M unit := fun _ => ([ReaderRead], Normal tt).

(** A callback call: recorded, then returning or throwing. *)
Definition call (ev : event) (behaviour : list event -> option thrown)
  : M unit :=
  fun history =>
    ([ev], match behaviour history with
           | None => Normal tt
           | Some e => Throw e
           end).

Fixpoint for_of {A} (xs : list A) (body : A -> M unit) : M unit :=
  match xs with
  | [] => ret tt
  | x :: rest => bind (body x) (fun _ => for_of rest body)
  end.

Definition await_fetch (o : fetch_outcome) : M response :=
  match o with
  | FetchRejects e => throw e
  | FetchResolves r => ret r
  end.

Definition await_json (o : json_outcome) : M json :=
  match o with
  | JsonRejects e => throw e
  | JsonResolves v => ret v
  end.

Section Callbacks.

Variable cb : callbacks.

Definition dispatch (line : jsstring) : M unit :=
  if startsWith data_prefix line then
    let content := trim (substring 5 line) in
    if truthy content
    then call (OnMessage content) (fun h => onMessage cb h content)
    else ret tt
  else ret tt.

Definition flush (buffer : jsstring) : M unit :=
  if truthy (trim buffer) then
    if startsWith data_prefix buffer then
      let content := trim (substring 5 buffer) in
      if truthy content
      then call (OnMessage content) (fun h => onMessage cb h content)
      else ret tt
    else ret tt
  else ret tt.

Fixpoint read_loop (rd : reader) (st : loop_state) : M jsstring :=
  match rd with
  | ReadFailure e => bind read (fun _ => throw e)
  | EndOfStream =>
      bind read (fun _ =>
      bind (call OnComplete (onComplete cb)) (fun _ =>
      ret (buffer st)))
  | Chunk value rest =>
      bind read (fun _ =>
      let (st', lines) := receive st value in
      bind (for_of lines dispatch) (fun _ =>
      read_loop rest st'))
  end.

Definition try_block (net : fetch_outcome) : M unit :=
  bind (await_fetch net) (fun response =>
  bind (if negb (ok response) then
          bind (try_catch
                  (bind (await_json (json_body response)) (fun errorData =>
                   if json_truthy (Some errorData)
                      && json_truthy (get_message errorData)
                   then
                     match get_message errorData with
                     | Some m => throw (ErrorObject (to_string m))
                     | None => throw (ErrorObject [])
                     end
                   else ret tt))
                  (fun _ => ret tt)) (fun _ =>
          throw (ErrorObject (request_failed (status response))))
        else ret tt) (fun _ =>
  bind (match body response with
        | Some rd => ret rd
        | None => throw (ErrorObject no_response_stream)
        end) (fun reader =>
  bind (read_loop reader loop_init) (fun buffer =>
  flush buffer)))).

Variable getErrorMessage : thrown -> jsstring.

(** The trace of a call, started with an empty history. *)
Definition queryKnowledgeBaseStream (net : fetch_outcome) : list event :=
  fst (try_catch (try_block net)
                 (fun error =>
                    call (OnError (getErrorMessage error))
                         (fun h => onError cb h (getErrorMessage error)))
                 []).

End Callbacks.



(** A caller whose [onMessage] throws once the stream has completed. *)
Definition late_message_throws : callbacks :=
  {| onMessage := fun h _ =>
       if existsb is_complete h then Some (ErrorObject (str "late"))
       else None;
     onComplete := fun _ => None;
     onError := fun _ _ => None |}.

End Throwing.

(* ================================================================== *)
(** ** The interview history panel ([InterviewPanel])                  *)
(* ================================================================== *)

Module InterviewPanel.

(** The objects of the [interviews] array are known by reference: two
    elements are [===] exactly when they are the same reference.  The
    store gives the fields of each object. *)
Definition ref := nat.

Record InterviewItem := {
  id : Z;
  sessionId : jsstring;
  overallScore : option Z;
  createdAt : jsstring;
  totalQuestions : Z
}.

Record ChartPoint := { name : jsstring; score : Z; index : Z }.

(** [xs.indexOf(x)]: the first position holding [x], or -1. *)
Fixpoint indexOf_from (k : Z) (xs : list ref) (x : ref) : Z :=
  match xs with
  | [] => -1
  | y :: ys => if Nat.eqb y x then k else indexOf_from (k + 1) ys x
  end.

Definition indexOf (xs : list ref) (x : ref) : Z := indexOf_from 0 xs x.

(** [v !== null] *)
Definition not_null (v : option Z) : bool :=
  match v with Some _ => true | None => false end.

(** [v || 0] *)
Definition or_zero (v : option Z) : Z :=
  match v with
  | Some n => if n =? 0 then 0 else n
  | None => 0
  end.

(** [xs.map((x, index) => f(x, index))], counting from [k]. *)
Fixpoint map_indexed {A B} (f : A -> Z -> B) (k : Z) (xs : list A) : list B :=
  match xs with
  | [] => []
  | x :: rest => f x k :: map_indexed f (k + 1) rest
  end.

(** The number in a card's title, [total - index]. *)
Definition cardNumber (total index : Z) : Z := total - index.

(** The cards rendered for the array, each with the number it shows. *)
Definition cards (interviews : list ref) : list (ref * Z) :=
  map_indexed
    (fun interview index =>
       (interview, cardNumber (Z.of_nat (List.length interviews)) index))
    0 interviews.

Section Chart.

(** [formatDateOnly] comes from ../utils/date and is a parameter. *)
Variable formatDateOnly : jsstring -> jsstring.
Variable store : ref -> InterviewItem.

(** The [useMemo] computation of [chartData]. *)
Definition chartData (interviews : list ref) : list ChartPoint :=
  rev
    (map
       (fun interview =>
          {| name := formatDateOnly (createdAt (store interview));
             score := or_zero (overallScore (store interview));
             index := Z.of_nat (List.length interviews)
                      - indexOf interviews interview |})
       (filter (fun i => not_null (overallScore (store i))) interviews)).

(** The chart point a card stands for: none when the interview has no
    score, else its date, its score and the card's number. *)
Definition point_of_card (card : ref * Z) : list ChartPoint :=
  match overallScore (store (fst card)) with
  | Some n =>
      [{| name := formatDateOnly (createdAt (store (fst card)));
          score := n;
          index := snd card |}]
  | None => []
  end.

End Chart.

(** *** Deleting an interview *)

Inductive effect :=
| StopPropagation
| SetDeleteConfirm (v : option jsstring)
| SetDeletingSessionId (v : option jsstring)
| DeleteInterview (session : jsstring)
| OnDeleteInterview (session : jsstring)
| Alert (message : jsstring).

(** What a [catch] clause receives. *)
Inductive caught :=
| ErrorInstance (message : jsstring)
| OtherValue.

Inductive outcome (A : Type) :=
| Done (a : A)
| Raised (err : caught).
Arguments Done {A} a.
Arguments Raised {A} err.

Definition P (A : Type) : Type := (list effect * outcome A)%type.

Definition pure {A} (a : A) : P A := ([], Done a).

Definition perform (e : effect) : P unit := ([e], Done tt).

Definition and_then {A B} (m : P A) (k : A -> P B) : P B :=
  match m with
  | (t, Done a) => let (t', r) := k a in (t ++ t', r)
  | (t, Raised err) => (t, Raised err)
  end.

(** [try { body } catch (err) { handler } finally { finalizer }] *)
Definition try_catch_finally {A} (body : P A) (handler : caught -> P A)
           (finalizer : P unit) : P A :=
  let (t, r) :=
    match body with
    | (t, Raised err) => let (t', r) := handler err in (t ++ t', r)
    | (t, Done a) => (t, Done a)
    end in
  match finalizer with
  | (tf, Done _) => (t ++ tf, r)
  | (tf, Raised err) => (t ++ tf, Raised err)
  end.

(** ['删除失败，请稍后重试'] *)
Definition delete_failed : jsstring :=
  [0x5220; 0x9664; 0x5931; 0x8D25; 0xFF0C; 0x8BF7; 0x7A0D; 0x540E; 0x91CD;
   0x8BD5].

(** [await historyApi.deleteInterview(sessionId)]; the answer of the
    server is the parameter [api], [None] when the request succeeds. *)
Definition await_delete (api : jsstring -> option caught) (session : jsstring)
  : P unit :=
  match api session with
  | None => ([DeleteInterview session], Done tt)
  | Some err => ([DeleteInterview session], Raised err)
  end.

(** [onDeleteInterview(sessionId)]: the parent's callback is called and
    returns, or throws what [parent] says. *)
Definition call_parent (parent : jsstring -> option caught)
           (session : jsstring) : P unit :=
  match parent session with
  | None => ([OnDeleteInterview session], Done tt)
  | Some err => ([OnDeleteInterview session], Raised err)
  end.

(** [err instanceof Error ? err.message : '删除失败，请稍后重试'] *)
Definition alert_text (err : caught) : jsstring :=
  match err with
  | ErrorInstance message => message
  | OtherValue => delete_failed
  end.

Definition handleDeleteClick (session : jsstring) : P unit :=
  and_then (perform StopPropagation)
           (fun _ => perform (SetDeleteConfirm (Some session))).

Definition handleDeleteConfirm (api parent : jsstring -> option caught)
           (deleteConfirm : option jsstring) : P unit :=
  match deleteConfirm with
  | None => pure tt
  | Some session =>
      and_then (perform (SetDeletingSessionId (Some session))) (fun _ =>
      try_catch_finally
        (and_then (await_delete api session) (fun _ =>
         and_then (call_parent parent session) (fun _ =>
         perform (SetDeleteConfirm None))))
        (fun err => perform (Alert (alert_text err)))
        (perform (SetDeletingSessionId None)))
  end.

(** The two state variables of the component and what the setters do. *)
Record panel_state := {
  deletingSessionId : option jsstring;
  deleteConfirm : option jsstring
}.

Definition apply_effect (st : panel_state) (e : effect) : panel_state :=
  match e with
  | SetDeleteConfirm v =>
      {| deletingSessionId := deletingSessionId st; deleteConfirm := v |}
  | SetDeletingSessionId v =>
      {| deletingSessionId := v; deleteConfirm := deleteConfirm st |}
  | _ => st
  end.

Definition after (st : panel_state) (t : list effect) : panel_state :=
  fold_left apply_effect t st.

Definition is_deleted_callback (e : effect) : bool :=
  match e with OnDeleteInterview _ => true | _ => false end.

Definition is_alert (e : effect) : bool :=
  match e with Alert _ => true | _ => false end.

Definition is_request (e : effect) : bool :=
  match e with DeleteInterview _ => true | _ => false end.

(** *** Sample data *)

Definition sample_store (r : ref) : InterviewItem :=
  {| id := Z.of_nat r;
     sessionId := str "s";
     overallScore :=
       match r with
       | 7%nat => Some 80
       | 3%nat => None
       | 5%nat => Some 0
       | _ => Some 61
       end;
     createdAt := str "2025-01-01";
     totalQuestions := 10 |}.

Definition sample_interviews : list ref := [7; 3; 5; 9]%nat.

Definition sample_api_down (session : jsstring) : option caught :=
  Some (ErrorInstance (str "timeout")).

Definition sample_parent_throws (session : jsstring) : option caught :=
  Some OtherValue.

End InterviewPanel.

(* ================================================================== *)
(** ** The addresses of the knowledge-base endpoints                   *)
(* ================================================================== *)

Module KnowledgeBaseApi.

(** The paths handed to [request] by [uploadKnowledgeBase],
    [getAllKnowledgeBases] and [queryKnowledgeBase], and the path of the
    streaming query. *)
Definition upload_path : jsstring := str "/api/knowledgebase/upload".
Definition list_path : jsstring := str "/api/knowledgebase/list".
Definition query_path : jsstring := str "/api/knowledgebase/query".
Definition stream_path : jsstring := str "/api/knowledgebase/query/stream".

(** The largest integer a number holds exactly,
    [Number.MAX_SAFE_INTEGER]. *)
Definition max_safe_integer : Z := 9007199254740991.

(** [`/api/knowledgebase/${id}`] of [getKnowledgeBase] and
    [deleteKnowledgeBase], for an id that is a safe integer: the template
    renders it in plain decimal, with a minus sign when negative.  Other
    numbers (fractions, or magnitudes the template renders in exponent
    form) are outside the model: [None]. *)
Definition item_path (id : Z) : option jsstring :=
  if Z.abs id <=? max_safe_integer
  then Some (str "/api/knowledgebase/" ++ int_to_string id)
  else None.

End KnowledgeBaseApi.

Ltac no_LF :=
  repeat (constructor;
          [let H := fresh in intros H; cbn in H; intuition discriminate|]).

(* ================================================================== *)
(** ** Lemmas on strings                                               *)
(* ================================================================== *)

Lemma split_not_nil (s : jsstring) : split s <> [].
Proof.
  destruct s as [|c r]; simpl; [discriminate|].
  destruct (c =? LF); [discriminate|].
  destruct (split r); discriminate.
Qed.

Lemma last_app_r {A} (l l' : list A) (d : A) :
  l' <> [] -> last (l ++ l') d = last l' d.
Proof.
  intros H. induction l as [|x l IH]; simpl; [reflexivity|].
  rewrite IH. destruct (l ++ l') eqn:E; [|reflexivity].
  apply app_eq_nil in E. tauto.
Qed.

(** Splitting a concatenation: the lines closed inside the first part are
    final, the open piece continues into the second part. *)
Lemma split_app (a b : jsstring) :
  split (a ++ b) = complete_lines a ++ split (residual a ++ b).
Proof.
  unfold complete_lines, residual.
  induction a as [|c a IH]; simpl; [reflexivity|].
  pose proof (split_not_nil a) as Hne.
  destruct (c =? LF) eqn:Hc.
  - rewrite IH. destruct (split a) as [|l ls] eqn:E; [contradiction|].
    reflexivity.
  - rewrite IH. destruct (split a) as [|l ls] eqn:E; [contradiction|].
    destruct ls as [|l2 ls]; simpl.
    + rewrite Hc. reflexivity.
    + reflexivity.
Qed.

Lemma complete_lines_app (a b : jsstring) :
  complete_lines (a ++ b) = complete_lines a ++ complete_lines (residual a ++ b).
Proof.
  unfold complete_lines at 1. rewrite split_app.
  rewrite removelast_app by apply split_not_nil. reflexivity.
Qed.

Lemma residual_app (a b : jsstring) :
  residual (a ++ b) = residual (residual a ++ b).
Proof.
  unfold residual at 1. rewrite split_app.
  rewrite last_app_r by apply split_not_nil. reflexivity.
Qed.

Lemma split_no_LF (s : jsstring) : Forall (fun l => ~ In LF l) (split s).
Proof.
  induction s as [|c r IH]; simpl.
  - constructor; [intros []|constructor].
  - destruct (c =? LF) eqn:Hc.
    + constructor; [intros []|exact IH].
    + destruct (split r) as [|l ls]; simpl.
      * constructor; [|constructor]. intros [H|[]].
        apply Z.eqb_neq in Hc. congruence.
      * inversion IH; subst. constructor; [|assumption].
        intros [H|H]; [apply Z.eqb_neq in Hc; congruence|auto].
Qed.

Lemma last_In {A} (l : list A) (d : A) : l <> [] -> In (last l d) l.
Proof.
  induction l as [|x l IH]; [contradiction|]. intros _.
  destruct l as [|y l]; [left; reflexivity|].
  right. apply IH. discriminate.
Qed.

Lemma residual_no_LF (s : jsstring) : ~ In LF (residual s).
Proof.
  unfold residual. pose proof (split_no_LF s) as H.
  rewrite Forall_forall in H. apply H.
  apply last_In, split_not_nil.
Qed.

Lemma complete_lines_no_LF (s : jsstring) :
  Forall (fun l => ~ In LF l) (complete_lines s).
Proof.
  unfold complete_lines. pose proof (split_no_LF s) as H.
  pose proof (split_not_nil s) as Hne.
  rewrite (app_removelast_last [] Hne) in H.
  apply Forall_app in H. tauto.
Qed.

Lemma split_without_LF (s : jsstring) : ~ In LF s -> split s = [s].
Proof.
  induction s as [|c r IH]; simpl; intros H; [reflexivity|].
  destruct (c =? LF) eqn:Hc.
  - apply Z.eqb_eq in Hc. tauto.
  - rewrite IH by tauto. reflexivity.
Qed.

Lemma split_line (l rest : jsstring) :
  ~ In LF l -> split (l ++ LF :: rest) = l :: split rest.
Proof.
  induction l as [|c l IH]; intros H.
  - reflexivity.
  - cbn [app split]. destruct (c =? LF) eqn:Hc.
    + apply Z.eqb_eq in Hc. subst c. exfalso. apply H. left. reflexivity.
    + rewrite IH; [reflexivity|]. intros Hin. apply H. right. exact Hin.
Qed.

(** A text made of terminated lines and an unterminated remainder splits
    back into exactly those. *)
Lemma lines_text_split (lines : list jsstring) (rest : jsstring) :
  Forall (fun l => ~ In LF l) lines -> ~ In LF rest ->
  complete_lines (lines_text lines ++ rest) = lines
  /\ residual (lines_text lines ++ rest) = rest.
Proof.
  intros Hl Hr. unfold complete_lines, residual.
  induction Hl as [|l ls Hl Hls IH].
  - cbn [lines_text map List.concat app].
    rewrite split_without_LF by assumption. split; reflexivity.
  - change (lines_text (l :: ls) ++ rest)
      with (((l ++ [LF]) ++ lines_text ls) ++ rest).
    rewrite <- !app_assoc. cbn [app]. rewrite split_line by assumption.
    destruct IH as [IH1 IH2].
    pose proof (split_not_nil (lines_text ls ++ rest)) as Hne.
    destruct (split (lines_text ls ++ rest)) as [|x xs] eqn:E;
      [contradiction|].
    split.
    + change (removelast (l :: x :: xs)) with (l :: removelast (x :: xs)).
      rewrite IH1. reflexivity.
    + change (last (l :: x :: xs) []) with (last (x :: xs) []). exact IH2.
Qed.

Lemma split_join (lines : list jsstring) :
  lines <> [] -> Forall (fun l => ~ In LF l) lines ->
  split (join lines) = lines.
Proof.
  intros Hne Hl. induction Hl as [|l ls Hl Hls IH]; [contradiction|].
  destruct ls as [|l2 ls].
  - cbn [join]. apply split_without_LF. exact Hl.
  - cbn [join]. rewrite split_line by assumption.
    cbn [join] in IH. rewrite IH by discriminate. reflexivity.
Qed.

Lemma pop_split (s : jsstring) :
  or_empty (fst (pop (split s))) = residual s
  /\ snd (pop (split s)) = complete_lines s.
Proof.
  unfold pop, residual, complete_lines.
  pose proof (split_not_nil s).
  destruct (split s) as [|l ls] eqn:E; [contradiction|].
  split; [|reflexivity]. cbn [fst or_empty].
  destruct (last (l :: ls) []); reflexivity.
Qed.

Lemma trimStart_nil_iff (s : jsstring) :
  trimStart s = [] <-> forallb is_whitespace s = true.
Proof.
  induction s as [|c r IH]; simpl; [tauto|].
  destruct (is_whitespace c); simpl; [exact IH|].
  split; discriminate.
Qed.

Lemma trimStart_head (s : jsstring) :
  match trimStart s with
  | c :: _ => is_whitespace c = false
  | [] => True
  end.
Proof.
  induction s as [|c r IH]; simpl; [exact I|].
  destruct (is_whitespace c) eqn:E; [exact IH|exact E].
Qed.

Lemma trimStart_app (l m : jsstring) :
  trimStart (l ++ m)
  = if forallb is_whitespace l then trimStart m else trimStart l ++ m.
Proof.
  induction l as [|c l IH]; simpl; [reflexivity|].
  destruct (is_whitespace c); simpl; [exact IH|reflexivity].
Qed.

(** Trimming the end keeps a first code unit that is not whitespace. *)
Lemma trimEnd_head (c : Z) (r : jsstring) :
  is_whitespace c = false -> exists r', trimEnd (c :: r) = c :: r'.
Proof.
  intros Hc. unfold trimEnd. simpl rev. rewrite trimStart_app.
  destruct (forallb is_whitespace (rev r)).
  - simpl. rewrite Hc. exists []. reflexivity.
  - rewrite rev_app_distr. simpl. eexists. reflexivity.
Qed.

Lemma trim_leading (s : jsstring) :
  match trim s with
  | c :: _ => is_whitespace c = false
  | [] => True
  end.
Proof.
  unfold trim. pose proof (trimStart_head s) as H.
  destruct (trimStart s) as [|c r]; [exact I|].
  destruct (trimEnd_head c r H) as [r' E]. rewrite E. exact H.
Qed.

Lemma trim_trailing (s : jsstring) :
  match rev (trim s) with
  | c :: _ => is_whitespace c = false
  | [] => True
  end.
Proof.
  unfold trim, trimEnd. rewrite rev_involutive. apply trimStart_head.
Qed.

Lemma trimStart_incl (s : jsstring) (x : Z) : In x (trimStart s) -> In x s.
Proof.
  induction s as [|c r IH]; simpl; [tauto|].
  destruct (is_whitespace c); [auto|]. tauto.
Qed.

Lemma trim_incl (s : jsstring) (x : Z) : In x (trim s) -> In x s.
Proof.
  unfold trim, trimEnd. intros H.
  apply in_rev, trimStart_incl in H. apply in_rev in H.
  apply trimStart_incl. exact H.
Qed.

Lemma trim_nil_trimStart (s : jsstring) : trim s = [] -> trimStart s = [].
Proof.
  unfold trim. intros H. pose proof (trimStart_head s) as Hh.
  destruct (trimStart s) as [|c r]; [reflexivity|].
  destruct (trimEnd_head c r Hh) as [r' E]. congruence.
Qed.

Lemma trim_nil_iff (s : jsstring) :
  trim s = [] <-> forallb is_whitespace s = true.
Proof.
  rewrite <- trimStart_nil_iff. split.
  - apply trim_nil_trimStart.
  - intros H. unfold trim. rewrite H. reflexivity.
Qed.

Lemma skipn_incl {A} (n : nat) (l : list A) (x : A) :
  In x (skipn n l) -> In x l.
Proof.
  revert l. induction n as [|n IH]; intros [|a l]; simpl; auto.
Qed.

Lemma strip_prefix_startsWith (p s : jsstring) :
  strip_prefix p s
  = if startsWith p s then Some (substring (List.length p) s) else None.
Proof.
  revert s. induction p as [|a p IH]; intros s; simpl; [reflexivity|].
  destruct s as [|b s]; [reflexivity|].
  destruct (a =? b); simpl; [apply IH|reflexivity].
Qed.

Lemma includes_app (needle a b : jsstring) :
  includes needle (a ++ needle ++ b) = true.
Proof.
  induction a as [|c a IH]; simpl.
  - assert (H : startsWith needle (needle ++ b) = true).
    { induction needle as [|x n IHn]; simpl; [reflexivity|].
      rewrite Z.eqb_refl. exact IHn. }
    destruct (needle ++ b) eqn:E.
    + simpl. rewrite H. reflexivity.
    + simpl. simpl in H. rewrite H. reflexivity.
  - rewrite IH. apply orb_true_r.
Qed.

(* ================================================================== *)
(** ** Lemmas on the decoder                                           *)
(* ================================================================== *)

(** Decoding is driven byte by byte: a chunk boundary is invisible. *)
Lemma decode_app (d : TextDecoder.t) (a b : list byte) :
  decode d (a ++ b)
  = let (d1, t1) := decode d a in
    let (d2, t2) := decode d1 b in (d2, t1 ++ t2).
Proof.
  revert d. induction a as [|x a IH]; intros d; simpl.
  - destruct (decode d b). reflexivity.
  - destruct (decode_byte d x) as [d1 o1]. rewrite IH.
    destruct (decode d1 a) as [d2 o2]. destruct (decode d2 b) as [d3 o3].
    rewrite app_assoc. reflexivity.
Qed.

Lemma stream_text_chunks (d : TextDecoder.t) (chunks : list (list byte))
      (close : reader) :
  stream_text d (reader_of chunks close)
  = snd (decode d (List.concat chunks))
    ++ stream_text (fst (decode d (List.concat chunks))) close.
Proof.
  revert d. induction chunks as [|c cs IH]; intros d; simpl; [reflexivity|].
  rewrite decode_app. destruct (decode d c) as [d1 t1]. rewrite IH.
  destruct (decode d1 (List.concat cs)) as [d2 t2]. simpl.
  rewrite app_assoc. reflexivity.
Qed.

Lemma stream_failure_chunks (chunks : list (list byte)) (close : reader) :
  stream_failure (reader_of chunks close) = stream_failure close.
Proof. induction chunks; simpl; auto. Qed.

(* ================================================================== *)
(** ** Lemmas on traces and on the loop                                *)
(* ================================================================== *)

Lemma bind_fst {A B} (m : M A) (k : A -> M B) :
  fst (bind m k)
  = fst m ++ match snd m with Normal a => fst (k a) | Throw _ => [] end.
Proof.
  destruct m as [t [a|e]]; simpl.
  - destruct (k a); reflexivity.
  - rewrite app_nil_r. reflexivity.
Qed.

Lemma bind_snd {A B} (m : M A) (k : A -> M B) :
  snd (bind m k)
  = match snd m with Normal a => snd (k a) | Throw e => Throw e end.
Proof.
  destruct m as [t [a|e]]; simpl; [destruct (k a)|]; reflexivity.
Qed.

Lemma try_catch_fst {A} (m : M A) (h : thrown -> M A) :
  fst (try_catch m h)
  = fst m ++ match snd m with Normal _ => [] | Throw e => fst (h e) end.
Proof.
  destruct m as [t [a|e]]; simpl.
  - rewrite app_nil_r. reflexivity.
  - destruct (h e); reflexivity.
Qed.

Lemma callbacks_app (a b : list event) :
  callbacks (a ++ b) = callbacks a ++ callbacks b.
Proof. apply filter_app. Qed.

Lemma callbacks_messages (ms : list jsstring) :
  callbacks (map OnMessage ms) = map OnMessage ms.
Proof. induction ms; simpl; congruence. Qed.

Lemma messages_app (a b : list event) :
  messages (a ++ b) = messages a ++ messages b.
Proof.
  induction a as [|[| | |] a IH]; simpl; rewrite ?IH; reflexivity.
Qed.

Lemma messages_map (ms : list jsstring) : messages (map OnMessage ms) = ms.
Proof. induction ms; simpl; congruence. Qed.

Lemma messages_callbacks (t : list event) :
  messages (callbacks t) = messages t.
Proof.
  induction t as [|[| | |] t IH]; simpl; rewrite ?IH; reflexivity.
Qed.

Lemma payloads_app (a b : list jsstring) :
  payloads (a ++ b) = payloads a ++ payloads b.
Proof. apply flat_map_app. Qed.

(** The loop body and the final block both follow the frame rule. *)
Lemma payloads_one (line : jsstring) :
  payloads [line]
  = if startsWith data_prefix line
    then if truthy (trim (substring 5 line))
         then [trim (substring 5 line)] else []
    else [].
Proof.
  unfold payloads, frame_payload. cbn [flat_map].
  rewrite strip_prefix_startsWith, app_nil_r.
  change (List.length data_prefix) with 5%nat.
  destruct (startsWith data_prefix line); [|reflexivity].
  cbv zeta. destruct (truthy (trim (substring 5 line))); reflexivity.
Qed.

Lemma dispatch_spec (line : jsstring) :
  dispatch line = (map OnMessage (payloads [line]), Normal tt).
Proof.
  rewrite payloads_one. unfold dispatch.
  destruct (startsWith data_prefix line); [|reflexivity].
  cbv zeta. destruct (truthy (trim (substring 5 line))); reflexivity.
Qed.

Lemma payloads_non_data (lines : list jsstring) :
  Forall (fun l => startsWith data_prefix l = false) lines ->
  payloads lines = [].
Proof.
  induction 1 as [|l ls Hl Hls IH]; [reflexivity|].
  change (l :: ls) with ([l] ++ ls). rewrite payloads_app, IH, payloads_one, Hl.
  reflexivity.
Qed.

Lemma startsWith_cons (a b : Z) (p s : jsstring) :
  startsWith (a :: p) (b :: s) = (a =? b) && startsWith p s.
Proof. reflexivity. Qed.

Lemma whitespace_not_data (s : jsstring) :
  trimStart s = [] -> startsWith data_prefix s = false.
Proof.
  destruct s as [|c r]; [reflexivity|]. cbn [trimStart].
  destruct (is_whitespace c) eqn:E; [|discriminate]. intros _.
  unfold data_prefix. rewrite startsWith_cons.
  destruct (100 =? c) eqn:Hc; [|reflexivity].
  apply Z.eqb_eq in Hc. subst c. discriminate.
Qed.

Lemma flush_spec (buffer : jsstring) :
  flush buffer = (map OnMessage (payloads [buffer]), Normal tt).
Proof.
  rewrite <- dispatch_spec. unfold flush, dispatch.
  destruct (truthy (trim buffer)) eqn:E; [reflexivity|].
  assert (H : trim buffer = []) by (destruct (trim buffer); [reflexivity|discriminate]).
  apply trim_nil_trimStart, whitespace_not_data in H. rewrite H. reflexivity.
Qed.

Lemma for_of_dispatch (lines : list jsstring) :
  for_of lines dispatch = (map OnMessage (payloads lines), Normal tt).
Proof.
  induction lines as [|l ls IH]; [reflexivity|].
  change (l :: ls) with ([l] ++ ls) at 2.
  rewrite payloads_app, map_app. simpl for_of.
  rewrite dispatch_spec, IH. reflexivity.
Qed.

Lemma receive_spec (st : loop_state) (value : list byte) :
  receive st value
  = ({| decoder := fst (decode (decoder st) value);
        buffer := residual (buffer st ++ snd (decode (decoder st) value)) |},
     complete_lines (buffer st ++ snd (decode (decoder st) value))).
Proof.
  unfold receive. destruct (decode (decoder st) value) as [d text]. simpl.
  destruct (pop_split (buffer st ++ text)) as [H1 H2].
  destruct (pop (split (buffer st ++ text))) as [popped lines].
  simpl in H1, H2. rewrite H1, H2. reflexivity.
Qed.

Lemma complete_lines_without_LF (s : jsstring) :
  ~ In LF s -> complete_lines s = [] /\ residual s = s.
Proof.
  intros H. unfold complete_lines, residual.
  rewrite split_without_LF by assumption. split; reflexivity.
Qed.

Lemma read_loop_callbacks (rd : reader) (st : loop_state) :
  ~ In LF (buffer st) ->
  callbacks (fst (read_loop rd st))
  = map OnMessage
      (payloads (complete_lines (buffer st ++ stream_text (decoder st) rd)))
    ++ match stream_failure rd with
       | None => [OnComplete]
       | Some _ => []
       end.
Proof.
  revert st. induction rd as [value rest IH| |e]; intros st Hb.
  - cbn [read_loop]. rewrite receive_spec. cbv iota beta.
    rewrite for_of_dispatch, !bind_fst. cbn [fst snd call].
    rewrite !callbacks_app, callbacks_messages.
    rewrite IH by apply residual_no_LF.
    cbn [decoder buffer stream_text stream_failure callbacks filter is_callback].
    destruct (decode (decoder st) value) as [d text]. cbn [fst snd app].
    rewrite (app_assoc (buffer st) text),
      (complete_lines_app (buffer st ++ text)), payloads_app, map_app.
    rewrite <- !app_assoc. reflexivity.
  - cbn [read_loop stream_text stream_failure]. rewrite ?app_nil_r.
    destruct (complete_lines_without_LF _ Hb) as [-> _]. reflexivity.
  - cbn [read_loop stream_text stream_failure]. rewrite ?app_nil_r.
    destruct (complete_lines_without_LF _ Hb) as [-> _]. reflexivity.
Qed.

Lemma read_loop_result (rd : reader) (st : loop_state) :
  ~ In LF (buffer st) ->
  snd (read_loop rd st)
  = match stream_failure rd with
    | None => Normal (residual (buffer st ++ stream_text (decoder st) rd))
    | Some e => Throw e
    end.
Proof.
  revert st. induction rd as [value rest IH| |e]; intros st Hb.
  - cbn [read_loop]. rewrite receive_spec. cbv iota beta.
    rewrite for_of_dispatch, !bind_snd. cbn [fst snd call].
    rewrite IH by apply residual_no_LF.
    cbn [decoder buffer stream_text stream_failure].
    destruct (decode (decoder st) value) as [d text]. cbn [fst snd].
    rewrite (app_assoc (buffer st) text), (residual_app (buffer st ++ text)).
    reflexivity.
  - cbn [read_loop stream_text stream_failure]. rewrite ?app_nil_r.
    destruct (complete_lines_without_LF _ Hb) as [_ ->]. reflexivity.
  - reflexivity.
Qed.

Lemma count_app (p : event -> bool) (a b : list event) :
  count p (a ++ b) = (count p a + count p b)%nat.
Proof. unfold count. rewrite filter_app, length_app. reflexivity. Qed.

Lemma count_read_messages (ms : list jsstring) :
  count is_read (map OnMessage ms) = 0%nat.
Proof. induction ms; simpl; auto. Qed.

Lemma read_loop_reads (rd : reader) (st : loop_state) :
  count is_read (fst (read_loop rd st)) = reads_needed rd.
Proof.
  revert st. induction rd as [value rest IH| |e]; intros st; try reflexivity.
  cbn [read_loop]. rewrite receive_spec. cbv iota beta.
  rewrite for_of_dispatch, !bind_fst. cbn [fst snd call].
  rewrite !count_app, count_read_messages, IH. reflexivity.
Qed.

(* ================================================================== *)
(** ** What the [try] block does, case by case                         *)
(* ================================================================== *)

Lemma try_block_fetch_rejects (e : thrown) :
  try_block (FetchRejects e) = ([], Throw e).
Proof. reflexivity. Qed.

(** The inner [try]/[catch] completes normally whatever happens in it, so
    a failed status always ends in the synthesized message. *)
Lemma try_block_failed_status (r : response) :
  ok r = false ->
  try_block (FetchResolves r)
  = ([], Throw (ErrorObject (request_failed (status r)))).
Proof.
  intros H. unfold try_block. cbn [await_fetch]. unfold bind at 1, ret at 1.
  rewrite H. cbn [negb].
  destruct (json_body r) as [e|v]; cbn [await_json].
  - reflexivity.
  - unfold bind at 3, ret at 1.
    destruct (json_truthy (Some v) && json_truthy (get_message v)).
    + destruct (get_message v); reflexivity.
    + reflexivity.
Qed.

Lemma try_block_no_body (r : response) :
  ok r = true -> body r = None ->
  try_block (FetchResolves r) = ([], Throw (ErrorObject no_response_stream)).
Proof.
  intros H Hb. unfold try_block. cbn [await_fetch]. unfold bind at 1, ret at 1.
  rewrite H, Hb. reflexivity.
Qed.

Lemma try_block_stream (r : response) (rd : reader) :
  ok r = true -> body r = Some rd ->
  try_block (FetchResolves r)
  = (buffer <- read_loop rd loop_init ;; flush buffer).
Proof.
  intros H Hb. unfold try_block. cbn [await_fetch]. unfold bind at 1, ret at 1.
  rewrite H, Hb. cbn [negb]. unfold bind at 1, ret at 1.
  unfold bind at 1, ret at 1.
  destruct (buffer <- read_loop rd loop_init ;; flush buffer) as [t c].
  reflexivity.
Qed.

Lemma no_LF_nil : ~ In LF (buffer loop_init).
Proof. intros []. Qed.

Lemma stream_block_callbacks (rd : reader) :
  callbacks (fst (buffer <- read_loop rd loop_init ;; flush buffer))
  = map OnMessage (payloads (complete_lines (stream_text create rd)))
    ++ match stream_failure rd with
       | None =>
           OnComplete
             :: map OnMessage (payloads [residual (stream_text create rd)])
       | Some _ => []
       end.
Proof.
  rewrite bind_fst, callbacks_app.
  rewrite read_loop_callbacks, read_loop_result by apply no_LF_nil.
  cbn [buffer decoder loop_init app].
  destruct (stream_failure rd) as [e|].
  - cbn [callbacks filter]. rewrite app_nil_r. reflexivity.
  - rewrite flush_spec. cbn [fst]. rewrite callbacks_messages.
    rewrite <- app_assoc. reflexivity.
Qed.

Lemma stream_block_result (rd : reader) :
  snd (buffer <- read_loop rd loop_init ;; flush buffer)
  = match stream_failure rd with
    | None => Normal tt
    | Some e => Throw e
    end.
Proof.
  rewrite bind_snd, read_loop_result by apply no_LF_nil.
  destruct (stream_failure rd); [reflexivity|].
  rewrite flush_spec. reflexivity.
Qed.

Section Traces.

Variable getErrorMessage : thrown -> jsstring.

#[local] Abbreviation query := (queryKnowledgeBaseStream getErrorMessage).

Lemma query_trace (net : fetch_outcome) :
  query net
  = fst (try_block net)
    ++ match snd (try_block net) with
       | Normal _ => []
       | Throw e => [OnError (getErrorMessage e)]
       end.
Proof.
  unfold queryKnowledgeBaseStream. rewrite try_catch_fst. reflexivity.
Qed.

Lemma query_fetch_rejects (e : thrown) :
  query (FetchRejects e) = [OnError (getErrorMessage e)].
Proof. reflexivity. Qed.

Lemma query_failed_status (r : response) :
  ok r = false ->
  query (FetchResolves r)
  = [OnError (getErrorMessage (ErrorObject (request_failed (status r))))].
Proof.
  intros H. rewrite query_trace, try_block_failed_status by assumption.
  reflexivity.
Qed.

Lemma query_no_body (r : response) :
  ok r = true -> body r = None ->
  query (FetchResolves r)
  = [OnError (getErrorMessage (ErrorObject no_response_stream))].
Proof.
  intros H Hb. rewrite query_trace, try_block_no_body by assumption.
  reflexivity.
Qed.

(** The callbacks of a streamed response: the payloads of the complete
    lines, then the terminal callback, and after [onComplete] the payload
    of the unterminated remainder. *)
Lemma query_stream (r : response) (rd : reader) :
  ok r = true -> body r = Some rd ->
  callbacks (query (FetchResolves r))
  = map OnMessage (payloads (complete_lines (stream_text create rd)))
    ++ match stream_failure rd with
       | None =>
           OnComplete
             :: map OnMessage (payloads [residual (stream_text create rd)])
       | Some e => [OnError (getErrorMessage e)]
       end.
Proof.
  intros H Hb. rewrite query_trace, (try_block_stream r rd) by assumption.
  rewrite callbacks_app, stream_block_callbacks, stream_block_result.
  destruct (stream_failure rd); cbn [callbacks filter is_callback].
  - rewrite app_nil_r. reflexivity.
  - rewrite app_nil_r. reflexivity.
Qed.



Lemma after_error_app (a b : list event) :
  count is_error a = 0%nat -> after_error (a ++ b) = after_error b.
Proof.
  unfold count. induction a as [|ev a IH]; [reflexivity|].
  destruct ev; cbn [filter is_error app after_error List.length]; auto.
  discriminate.
Qed.


Lemma ok_with_body (r : response) (rd : reader) : ok (with_body r rd) = ok r.
Proof. reflexivity. Qed.

End Traces.

Lemma state_after_snoc (chunks : list (list byte)) (value : list byte) :
  state_after (chunks ++ [value])
  = fst (receive (state_after chunks) value).
Proof. unfold state_after. rewrite fold_left_app. reflexivity. Qed.

Lemma state_after_no_LF (chunks : list (list byte)) :
  ~ In LF (buffer (state_after chunks)).
Proof.
  destruct chunks as [|c cs] using rev_ind; [intros []|].
  rewrite state_after_snoc, receive_spec. apply residual_no_LF.
Qed.

Lemma read_loop_break (chunks : list (list byte)) (st : loop_state) :
  snd (read_loop (reader_of chunks EndOfStream) st)
  = Normal
      (buffer (fold_left (fun st value => fst (receive st value)) chunks st)).
Proof.
  revert st. induction chunks as [|c cs IH]; intros st; [reflexivity|].
  cbn [reader_of read_loop fold_left].
  destruct (receive st c) as [st' lines].
  rewrite for_of_dispatch, !bind_snd. cbn [fst snd call]. apply IH.
Qed.


(* ================================================================== *)
(** ** The properties                                                  *)
(* ================================================================== *)

(** C3. However a byte sequence is cut into chunks (inside a multi-byte
    character, inside a line, inside the [data:] prefix), the sequence of
    [onMessage] payloads is the one produced when the same bytes arrive as
    one single chunk. *)
Theorem chunk_boundaries_are_invisible
        (getErrorMessage : thrown -> jsstring) (r : response)
        (chunks : list (list byte)) (close : reader) :
  messages (queryKnowledgeBaseStream getErrorMessage
              (FetchResolves (with_body r (reader_of chunks close))))
  = messages (queryKnowledgeBaseStream getErrorMessage
                (FetchResolves
                   (with_body r (reader_of [List.concat chunks] close)))).
Proof.
  destruct (ok r) eqn:Hok.
  - rewrite <- (messages_callbacks (queryKnowledgeBaseStream _ _)).
    rewrite <- (messages_callbacks
                  (queryKnowledgeBaseStream _
                     (FetchResolves (with_body r (reader_of [_] close))))).
    rewrite (query_stream _ _ (reader_of chunks close)) by auto.
    rewrite (query_stream _ _ (reader_of [List.concat chunks] close)) by auto.
    rewrite !stream_text_chunks, !stream_failure_chunks.
    cbn [List.concat]. rewrite app_nil_r. reflexivity.
  - rewrite !query_failed_status by auto. reflexivity.
Qed.

(** C1, as the code has it.  For a stream whose last line [data:payload]
    is not newline-terminated, [onComplete] is called when the reader
    reports the end of the stream, inside the loop, and the remaining
    buffer is dispatched only afterwards: [onMessage("payload")] follows
    [onComplete] instead of preceding it. *)
Theorem residual_payload_follows_onComplete
        (getErrorMessage : thrown -> jsstring) :
  queryKnowledgeBaseStream getErrorMessage
    (streaming (reader_of [bytes "data:payload"] EndOfStream))
  = [ReaderRead; ReaderRead; OnComplete; OnMessage (str "payload")]
  /\ queryKnowledgeBaseStream getErrorMessage
       (streaming
          (reader_of [line_bytes "data: first"; bytes "data:pay"; bytes "load"]
                     EndOfStream))
     = [ReaderRead; OnMessage (str "first"); ReaderRead; ReaderRead;
        ReaderRead; OnComplete; OnMessage (str "payload")].
Proof. split; reflexivity. Qed.

(** C2, as the code has it.  The error built from the [message] field of
    the JSON body is thrown inside the inner [try], whose [catch] discards
    it; [onError] receives the message synthesized from the status, and
    the body's own message is lost. *)
Theorem json_error_message_is_discarded
        (getErrorMessage : thrown -> jsstring) (b : option reader) :
  queryKnowledgeBaseStream getErrorMessage
    (FetchResolves
       {| status := 500;
          json_body :=
            JsonResolves
              (JObject [(str "message", JString (str "quota exceeded"))]);
          body := b |})
  = [OnError (getErrorMessage (ErrorObject (request_failed 500)))]
  /\ request_failed 500 <> str "quota exceeded".
Proof.
  split.
  - apply query_failed_status. reflexivity.
  - discriminate.
Qed.

(** C6. A stream in which no line starts with [data:] produces no
    [onMessage] call and exactly one [onComplete] call. *)
Theorem non_data_lines_are_ignored
        (getErrorMessage : thrown -> jsstring) (r : response)
        (chunks : list (list byte)) (lines : list jsstring) :
  ok r = true ->
  body r = Some (reader_of chunks EndOfStream) ->
  Forall (fun l => ~ In LF l) lines ->
  Forall (fun l => startsWith data_prefix l = false) lines ->
  snd (decode create (List.concat chunks)) = join lines ->
  callbacks (queryKnowledgeBaseStream getErrorMessage (FetchResolves r))
  = [OnComplete].
Proof.
  intros Hok Hb Hl Hd Ht.
  rewrite (query_stream _ r _ Hok Hb).
  rewrite stream_text_chunks, stream_failure_chunks, Ht.
  cbn [stream_text stream_failure]. rewrite app_nil_r.
  destruct lines as [|l ls]; [reflexivity|].
  assert (Hne : l :: ls <> []) by discriminate.
  unfold complete_lines, residual. rewrite split_join by assumption.
  rewrite (app_removelast_last [] Hne) in Hd.
  apply Forall_app in Hd. destruct Hd as [Hd1 Hd2].
  rewrite !payloads_non_data by assumption. reflexivity.
Qed.

(** C7. After every chunk the retained buffer contains no newline: it is
    the last piece of the split, the one line still open.  The buffer the
    loop holds when the stream ends is that of the last chunk. *)
Theorem buffer_holds_one_partial_line (chunks : list (list byte)) :
  ~ In LF (buffer (state_after chunks))
  /\ snd (read_loop (reader_of chunks EndOfStream) loop_init)
     = Normal (buffer (state_after chunks))
  /\ forall value : list byte,
       let text := buffer (state_after chunks)
                   ++ snd (decode (decoder (state_after chunks)) value) in
       buffer (state_after (chunks ++ [value])) = last (split text) []
       /\ snd (receive (state_after chunks) value) = removelast (split text).
Proof.
  split; [apply state_after_no_LF|].
  split; [apply read_loop_break|].
  intros value text. rewrite state_after_snoc, receive_spec.
  split; reflexivity.
Qed.

(** C8. A successful response without a readable body is reported by one
    [onError] call and nothing else: no read, no [onMessage], no
    [onComplete].  A failed status whose body cannot be parsed is reported
    by one [onError] call whose message contains the status code.
    [getErrorMessage] is assumed to return the message of an [Error]. *)
Theorem failures_are_reported_before_any_read
        (getErrorMessage : thrown -> jsstring) (r : response) :
  (forall m, getErrorMessage (ErrorObject m) = m) ->
  (ok r = true -> body r = None ->
   queryKnowledgeBaseStream getErrorMessage (FetchResolves r)
   = [OnError no_response_stream])
  /\ (forall e, ok r = false -> json_body r = JsonRejects e ->
      exists msg,
        queryKnowledgeBaseStream getErrorMessage (FetchResolves r)
        = [OnError msg]
        /\ includes (number_to_string (status r)) msg = true).
Proof.
  intros Hg. split.
  - intros Hok Hb. rewrite query_no_body by assumption. rewrite Hg.
    reflexivity.
  - intros e Hok _. exists (request_failed (status r)). split.
    + rewrite query_failed_status by assumption. rewrite Hg. reflexivity.
    + unfold request_failed. apply includes_app.
Qed.


(* ================================================================== *)
(** ** Concrete runs                                                   *)
(* ================================================================== *)

(** The two-chunk example: a line cut inside its payload. *)
Example hello_world :
  queryKnowledgeBaseStream id_message
    (streaming
       (reader_of [bytes "data: hel"; line_bytes "lo" ++ line_bytes "data: world"]
                  EndOfStream))
  = [ReaderRead; ReaderRead; OnMessage (str "hello"); OnMessage (str "world");
     ReaderRead; OnComplete].
Proof. reflexivity. Qed.

(** A payload of whitespace only is not forwarded. *)
Example blank_payload :
  queryKnowledgeBaseStream id_message
    (streaming (reader_of [line_bytes "data:   "] EndOfStream))
  = [ReaderRead; ReaderRead; OnComplete].
Proof. reflexivity. Qed.

(** A three-byte character and a four-byte character, each cut by a chunk
    boundary, decode as when they arrive whole. *)
Example split_code_points :
  queryKnowledgeBaseStream id_message
    (streaming
       (reader_of [bytes "data: " ++ [xe4; xbd]; [xa0; xf0; x9f];
                   [x98; x80; x0a]]
                  EndOfStream))
  = [ReaderRead; ReaderRead; ReaderRead;
     OnMessage [0x4F60; 0xD83D; 0xDE00]; ReaderRead; OnComplete].
Proof. reflexivity. Qed.

(** A read that fails ends the stream with [onError] alone. *)
Example read_failure :
  queryKnowledgeBaseStream id_message
    (streaming
       (reader_of [line_bytes "data: a"; bytes "data: b"]
                  (ReadFailure (Rejection (str "TypeError") (str "network error")))))
  = [ReaderRead; OnMessage (str "a"); ReaderRead; ReaderRead;
     OnError (str "network error")].
Proof. reflexivity. Qed.

Lemma non_data_lines_are_ignored_witness :
  callbacks
    (queryKnowledgeBaseStream id_message
       (streaming (reader_of sample_comments EndOfStream)))
  = [OnComplete].
Proof.
  apply (non_data_lines_are_ignored id_message
           (streaming_response (reader_of sample_comments EndOfStream))
           sample_comments
           [str ": keep-alive"; str "event: done"; str ""; str "id: 7"]).
  - reflexivity.
  - reflexivity.
  - no_LF. constructor.
  - repeat constructor.
  - reflexivity.
Defined.

Lemma failures_are_reported_before_any_read_witness :
  queryKnowledgeBaseStream id_message
    (FetchResolves
       {| status := 200; json_body := JsonResolves JNull; body := None |})
  = [OnError no_response_stream]
  /\ exists msg,
       queryKnowledgeBaseStream id_message (FetchResolves unparsable_500)
       = [OnError msg]
       /\ includes (str "500") msg = true.
Proof.
  split.
  - apply (failures_are_reported_before_any_read id_message);
      intros; reflexivity.
  - apply (proj2 (failures_are_reported_before_any_read id_message
                    unparsable_500 (fun m => eq_refl))
             (Rejection (str "SyntaxError") (str "bad JSON")));
      reflexivity.
Defined.


(* ================================================================== *)
(** ** Further properties of the stream decoder                        *)
(* ================================================================== *)

Lemma join_split (s : jsstring) : join (split s) = s.
Proof.
  induction s as [|c r IH]; [reflexivity|]. cbn [split].
  pose proof (split_not_nil r) as Hne.
  destruct (split r) as [|l ls] eqn:E; [contradiction|].
  destruct (c =? LF) eqn:Hc.
  - apply Z.eqb_eq in Hc. subst c.
    change (join ([] :: l :: ls)) with (LF :: join (l :: ls)).
    rewrite IH. reflexivity.
  - cbn [cons_head]. rewrite <- IH.
    destruct ls; reflexivity.
Qed.






Lemma reads_needed_chunks (chunks : list (list byte)) (close : reader) :
  reads_needed (reader_of chunks close)
  = (List.length chunks + reads_needed close)%nat.
Proof. induction chunks as [|c cs IH]; simpl; congruence. Qed.

Lemma read_loop_starts_with_read (rd : reader) (st : loop_state) :
  exists t, fst (read_loop rd st) = ReaderRead :: t.
Proof.
  destruct rd; cbn [read_loop]; rewrite bind_fst; cbn [fst call app];
    eexists; reflexivity.
Qed.

(** What the loop does with the first chunks does not depend on what
    follows them. *)
Lemma read_loop_prefix (a : list (list byte)) (st : loop_state) :
  ~ In LF (buffer st) ->
  exists pre,
    count is_read pre = List.length a
    /\ callbacks pre
       = map OnMessage
           (payloads
              (complete_lines
                 (buffer st ++ snd (decode (decoder st) (List.concat a)))))
    /\ forall b close,
         fst (read_loop (reader_of (a ++ b) close) st)
         = pre
           ++ fst (read_loop (reader_of b close)
                     (fold_left (fun st value => fst (receive st value)) a st)).
Proof.
  revert st. induction a as [|v a IH]; intros st Hb.
  - exists []. repeat split.
    cbn [List.concat decode snd]. rewrite app_nil_r.
    destruct (complete_lines_without_LF _ Hb) as [-> _]. reflexivity.
  - destruct (IH (fst (receive st v))) as (pre & Hr & Hc & Hp).
    { rewrite receive_spec. apply residual_no_LF. }
    exists (ReaderRead :: map OnMessage (payloads (snd (receive st v))) ++ pre).
    split; [|split].
    + change (ReaderRead :: ?l) with ([ReaderRead] ++ l).
      rewrite !count_app, count_read_messages, Hr. reflexivity.
    + change (ReaderRead :: ?l) with ([ReaderRead] ++ l).
      rewrite !callbacks_app, callbacks_messages, Hc.
      rewrite receive_spec. cbn [fst snd buffer decoder List.concat].
      rewrite decode_app.
      destruct (decode (decoder st) v) as [d1 t1]. cbn [fst snd].
      destruct (decode d1 (List.concat a)) as [d2 t2]. cbn [fst snd].
      rewrite (app_assoc (buffer st) t1),
        (complete_lines_app (buffer st ++ t1)), payloads_app, map_app.
      reflexivity.
    + intros b close. cbn [app reader_of read_loop fold_left].
      destruct (receive st v) as [st' lines] eqn:E. cbn [fst snd] in *.
      rewrite for_of_dispatch, !bind_fst. cbn [fst snd call].
      rewrite Hp, <- !app_assoc. reflexivity.
Qed.

(** X1. A stream that ends normally loses nothing and repeats nothing:
    the payloads handed to [onMessage] are, in order, those of every line
    of the text, the unterminated last one included. *)
Theorem every_line_is_delivered_once
        (getErrorMessage : thrown -> jsstring) (r : response)
        (chunks : list (list byte)) (lines : list jsstring)
        (rest : jsstring) :
  ok r = true ->
  body r = Some (reader_of chunks EndOfStream) ->
  Forall (fun l => ~ In LF l) lines ->
  ~ In LF rest ->
  snd (decode create (List.concat chunks)) = lines_text lines ++ rest ->
  messages (queryKnowledgeBaseStream getErrorMessage (FetchResolves r))
  = payloads (lines ++ [rest]).
Proof.
  intros Hok Hb Hl Hr Ht.
  rewrite <- messages_callbacks, (query_stream _ r _ Hok Hb).
  rewrite stream_text_chunks, stream_failure_chunks, Ht.
  cbn [stream_text stream_failure]. rewrite app_nil_r.
  destruct (lines_text_split lines rest Hl Hr) as [-> ->].
  rewrite messages_app, messages_map. cbn [messages].
  rewrite messages_map, payloads_app. reflexivity.
Qed.

Lemma every_line_is_delivered_once_witness :
  messages
    (queryKnowledgeBaseStream id_message
       (streaming (reader_of sample_open_end EndOfStream)))
  = [str "one"; str "two"].
Proof.
  apply (every_line_is_delivered_once id_message
           (streaming_response (reader_of sample_open_end EndOfStream))
           sample_open_end [str "data: one"; str "event: x"] (str "data: two")).
  - reflexivity.
  - reflexivity.
  - no_LF. constructor.
  - intros H; cbn in H; intuition discriminate.
  - reflexivity.
Defined.

(** X2. When a read fails, the lines completed so far have been
    delivered, the line still open is dropped even if it is a data line,
    and [onError] receives the message of the read failure. *)
Theorem read_failure_drops_the_open_line
        (getErrorMessage : thrown -> jsstring) (r : response)
        (chunks : list (list byte)) (e : thrown)
        (lines : list jsstring) (rest : jsstring) :
  ok r = true ->
  body r = Some (reader_of chunks (ReadFailure e)) ->
  Forall (fun l => ~ In LF l) lines ->
  ~ In LF rest ->
  snd (decode create (List.concat chunks)) = lines_text lines ++ rest ->
  callbacks (queryKnowledgeBaseStream getErrorMessage (FetchResolves r))
  = map OnMessage (payloads lines) ++ [OnError (getErrorMessage e)].
Proof.
  intros Hok Hb Hl Hr Ht.
  rewrite (query_stream _ r _ Hok Hb).
  rewrite stream_text_chunks, stream_failure_chunks, Ht.
  cbn [stream_text stream_failure]. rewrite app_nil_r.
  destruct (lines_text_split lines rest Hl Hr) as [-> _]. reflexivity.
Qed.

Lemma read_failure_drops_the_open_line_witness :
  callbacks
    (queryKnowledgeBaseStream id_message
       (streaming (reader_of sample_open_end (ReadFailure network_error))))
  = [OnMessage (str "one"); OnError (str "network error")].
Proof.
  apply (read_failure_drops_the_open_line id_message
           (streaming_response
              (reader_of sample_open_end (ReadFailure network_error)))
           sample_open_end network_error
           [str "data: one"; str "event: x"] (str "data: two")).
  - reflexivity.
  - reflexivity.
  - no_LF. constructor.
  - intros H; cbn in H; intuition discriminate.
  - reflexivity.
Defined.

(** X3. The reader is read once for every chunk and once more for the
    signal that closes the stream, and never again after it. *)
Theorem one_read_per_chunk_and_one_to_close
        (getErrorMessage : thrown -> jsstring) (r : response)
        (chunks : list (list byte)) (close : reader) :
  ok r = true ->
  body r = Some (reader_of chunks close) ->
  close = EndOfStream \/ (exists e, close = ReadFailure e) ->
  count is_read (queryKnowledgeBaseStream getErrorMessage (FetchResolves r))
  = S (List.length chunks).
Proof.
  intros Hok Hb Hc.
  rewrite query_trace, (try_block_stream r _ Hok Hb).
  rewrite count_app, bind_fst, count_app, read_loop_reads, reads_needed_chunks.
  assert (H1 : reads_needed close = 1%nat)
    by (destruct Hc as [->|[e ->]]; reflexivity).
  assert (H2 : count is_read
                 match snd (read_loop (reader_of chunks close) loop_init) with
                 | Normal a => fst (flush a)
                 | Throw _ => []
                 end = 0%nat).
  { destruct (snd (read_loop (reader_of chunks close) loop_init));
      [|reflexivity].
    rewrite flush_spec. apply count_read_messages. }
  rewrite H1, H2.
  destruct (snd (buffer <- read_loop (reader_of chunks close) loop_init;;
                 flush buffer)); cbn; lia.
Qed.

Lemma one_read_per_chunk_and_one_to_close_witness :
  count is_read
    (queryKnowledgeBaseStream id_message
       (streaming (reader_of sample_open_end (ReadFailure network_error))))
  = 6%nat.
Proof.
  apply (one_read_per_chunk_and_one_to_close id_message
           (streaming_response
              (reader_of sample_open_end (ReadFailure network_error)))
           sample_open_end (ReadFailure network_error)).
  - reflexivity.
  - reflexivity.
  - right. exists network_error. reflexivity.
Defined.

(** X4. Delivery is incremental.  Once the first chunks have been read,
    the payloads of all the lines they complete have been handed to
    [onMessage], before the next read and whatever that read will bring;
    no terminal callback has been made yet. *)
Theorem complete_lines_are_delivered_before_the_next_read
        (getErrorMessage : thrown -> jsstring) (first : list (list byte)) :
  exists pre,
    count is_read pre = List.length first
    /\ callbacks pre
       = map OnMessage
           (payloads
              (complete_lines (snd (decode create (List.concat first)))))
    /\ forall r later close,
         ok r = true ->
         body r = Some (reader_of (first ++ later) close) ->
         exists post,
           queryKnowledgeBaseStream getErrorMessage (FetchResolves r)
           = pre ++ ReaderRead :: post.
Proof.
  destruct (read_loop_prefix first loop_init no_LF_nil) as (pre & Hr & Hc & Hp).
  exists pre. split; [exact Hr|]. split; [exact Hc|].
  intros r later close Hok Hb.
  rewrite query_trace, (try_block_stream r _ Hok Hb), bind_fst, Hp.
  destruct (read_loop_starts_with_read
              (reader_of later close)
              (fold_left (fun st value => fst (receive st value)) first
                         loop_init)) as [t Ht].
  rewrite Ht, <- !app_assoc. cbn [app]. eexists. reflexivity.
Qed.



(** X7. Splitting keeps all the text: the lines handed on after a chunk,
    joined by newlines with the buffer that is kept, are exactly the
    previous buffer followed by the decoded chunk. *)
Theorem receive_keeps_all_text (st : loop_state) (value : list byte) :
  join (snd (receive st value) ++ [buffer (fst (receive st value))])
  = buffer st ++ snd (decode (decoder st) value).
Proof.
  rewrite receive_spec. cbn [fst snd buffer].
  unfold complete_lines, residual.
  rewrite <- app_removelast_last by apply split_not_nil.
  apply join_split.
Qed.

(* ================================================================== *)
(** ** Properties of the interview history panel                       *)
(* ================================================================== *)

Section PanelChart.

Import InterviewPanel.

Variable formatDateOnly : jsstring -> jsstring.
Variable store : ref -> InterviewItem.

Lemma indexOf_from_first (k : Z) (pre : list ref) (x : ref) (l : list ref) :
  ~ In x pre ->
  indexOf_from k (pre ++ x :: l) x = k + Z.of_nat (List.length pre).
Proof.
  revert k. induction pre as [|y pre IH]; intros k H.
  - cbn. rewrite Nat.eqb_refl. lia.
  - cbn [app indexOf_from List.length].
    destruct (Nat.eqb y x) eqn:E.
    + apply Nat.eqb_eq in E. subst y. exfalso. apply H. left. reflexivity.
    + rewrite IH by (intros Hin; apply H; right; exact Hin). lia.
Qed.

Lemma or_zero_some (n : Z) : or_zero (Some n) = n.
Proof.
  unfold or_zero. destruct (n =? 0) eqn:E; [|reflexivity].
  apply Z.eqb_eq in E. auto.
Qed.

(** The points computed for a suffix of the array are those of its cards,
    numbered from the length of the prefix. *)
Lemma chart_suffix (N : Z) (A l pre : list ref) :
  A = pre ++ l -> NoDup A ->
  map (fun interview =>
         {| name := formatDateOnly (createdAt (store interview));
            score := or_zero (overallScore (store interview));
            index := N - indexOf A interview |})
      (filter (fun i => not_null (overallScore (store i))) l)
  = flat_map (point_of_card formatDateOnly store)
      (map_indexed (fun interview i => (interview, cardNumber N i))
                   (Z.of_nat (List.length pre)) l).
Proof.
  revert pre. induction l as [|x l IH]; intros pre HA Hnd; [reflexivity|].
  assert (Hx : ~ In x pre).
  { subst A. apply NoDup_remove_2 in Hnd. intros Hin. apply Hnd.
    apply in_or_app. left. exact Hin. }
  assert (Htail :
            map (fun interview =>
                   {| name := formatDateOnly (createdAt (store interview));
                      score := or_zero (overallScore (store interview));
                      index := N - indexOf A interview |})
                (filter (fun i => not_null (overallScore (store i))) l)
            = flat_map (point_of_card formatDateOnly store)
                (map_indexed (fun interview i => (interview, cardNumber N i))
                             (Z.of_nat (List.length pre) + 1) l)).
  { replace (Z.of_nat (List.length pre) + 1)
      with (Z.of_nat (List.length (pre ++ [x])))
      by (rewrite length_app; cbn [List.length]; clear; lia).
    apply IH; [|exact Hnd]. rewrite <- app_assoc. exact HA. }
  cbn [filter map_indexed flat_map]. unfold point_of_card at 1. cbn [fst snd].
  destruct (overallScore (store x)) as [n|] eqn:Hs; cbn [not_null].
  - cbn [map app]. rewrite Htail, Hs, or_zero_some. f_equal. f_equal.
    unfold indexOf, cardNumber. rewrite HA, indexOf_from_first by assumption.
    lia.
  - cbn [app]. exact Htail.
Qed.

Lemma card_indexes_decrease (N k : Z) (l : list ref) :
  StronglySorted (fun a b => b < a)
    (map index
       (flat_map (point_of_card formatDateOnly store)
          (map_indexed (fun interview i => (interview, cardNumber N i)) k l)))
  /\ Forall (fun i => N - k - Z.of_nat (List.length l) < i <= N - k)
       (map index
          (flat_map (point_of_card formatDateOnly store)
             (map_indexed (fun interview i => (interview, cardNumber N i))
                          k l))).
Proof.
  revert k. induction l as [|x l IH]; intros k.
  - split; constructor.
  - destruct (IH (k + 1)) as [Hs Hf]. cbn [map_indexed flat_map].
    assert (Hf' : Forall (fun i => N - k - Z.of_nat (List.length (x :: l)) < i
                                   <= N - k - 1)
                    (map index
                       (flat_map (point_of_card formatDateOnly store)
                          (map_indexed
                             (fun interview i => (interview, cardNumber N i))
                             (k + 1) l)))).
    { eapply Forall_impl; [|exact Hf]. cbn [List.length]. intros i Hi. lia. }
    unfold point_of_card at 1 3. cbn [fst snd].
    destruct (overallScore (store x)); cbn [app map index].
    + split.
      * constructor; [exact Hs|].
        eapply Forall_impl; [|exact Hf']. unfold cardNumber. intros i Hi. lia.
      * constructor;
          [unfold cardNumber; cbn [List.length]; rewrite Nat2Z.inj_succ; lia|].
        eapply Forall_impl; [|exact Hf']. cbn beta. intros i Hi. lia.
    + split; [exact Hs|].
      eapply Forall_impl; [|exact Hf']. cbn beta. intros i Hi. lia.
Qed.

Lemma sorted_snoc {A} (R : A -> A -> Prop) (l : list A) (a : A) :
  StronglySorted R l -> Forall (fun x => R x a) l ->
  StronglySorted R (l ++ [a]).
Proof.
  induction 1 as [|x l Hs IH Hx]; intros Hf; cbn [app].
  - constructor; constructor.
  - inversion Hf; subst. constructor; [auto|].
    apply Forall_app. split; [exact Hx|]. constructor; [assumption|constructor].
Qed.

Lemma sorted_rev {A} (R : A -> A -> Prop) (l : list A) :
  StronglySorted (fun a b => R b a) l -> StronglySorted R (rev l).
Proof.
  induction 1 as [|x l Hs IH Hx]; cbn [rev]; [constructor|].
  apply sorted_snoc; [exact IH|]. apply Forall_rev. exact Hx.
Qed.

End PanelChart.

(** X8. When the array holds distinct objects, the chart shows exactly the
    interviews that have a score, last of the list first, each with its
    own score and with the number shown in the title of its card. *)
Theorem chart_points_are_the_scored_cards
        (formatDateOnly : jsstring -> jsstring)
        (store : InterviewPanel.ref -> InterviewPanel.InterviewItem)
        (interviews : list InterviewPanel.ref) :
  NoDup interviews ->
  InterviewPanel.chartData formatDateOnly store interviews
  = rev (flat_map (InterviewPanel.point_of_card formatDateOnly store)
                  (InterviewPanel.cards interviews)).
Proof.
  intros Hnd. unfold InterviewPanel.chartData, InterviewPanel.cards.
  f_equal. apply (chart_suffix _ _ _ interviews interviews []); auto.
Qed.

Lemma chart_points_are_the_scored_cards_witness :
  InterviewPanel.chartData (fun d => d) InterviewPanel.sample_store
                           InterviewPanel.sample_interviews
  = [ {| InterviewPanel.name := str "2025-01-01";
         InterviewPanel.score := 61; InterviewPanel.index := 1 |};
      {| InterviewPanel.name := str "2025-01-01";
         InterviewPanel.score := 0; InterviewPanel.index := 2 |};
      {| InterviewPanel.name := str "2025-01-01";
         InterviewPanel.score := 80; InterviewPanel.index := 4 |} ].
Proof.
  apply (chart_points_are_the_scored_cards
           (fun d => d) InterviewPanel.sample_store
           InterviewPanel.sample_interviews).
  repeat (constructor; [cbn; intuition discriminate|]). constructor.
Defined.

(** X9. When the array holds distinct objects, the chart's points come in
    strictly increasing order of their index, and every index lies between
    1 and the number of interviews. *)
Theorem chart_indexes_increase
        (formatDateOnly : jsstring -> jsstring)
        (store : InterviewPanel.ref -> InterviewPanel.InterviewItem)
        (interviews : list InterviewPanel.ref) :
  NoDup interviews ->
  StronglySorted Z.lt
    (map InterviewPanel.index
         (InterviewPanel.chartData formatDateOnly store interviews))
  /\ Forall (fun p => 1 <= InterviewPanel.index p
                      <= Z.of_nat (List.length interviews))
       (InterviewPanel.chartData formatDateOnly store interviews).
Proof.
  intros Hnd. unfold InterviewPanel.chartData.
  rewrite (chart_suffix formatDateOnly store _ interviews interviews [])
    by auto.
  destruct (card_indexes_decrease formatDateOnly store
              (Z.of_nat (List.length interviews)) 0 interviews) as [Hs Hf].
  cbn [List.length Z.of_nat]. split.
  - rewrite map_rev. apply sorted_rev. exact Hs.
  - apply Forall_rev. apply Forall_map in Hf.
    eapply Forall_impl; [|exact Hf]. cbn beta. intros p Hp. lia.
Qed.

Lemma chart_indexes_increase_witness :
  StronglySorted Z.lt
    (map InterviewPanel.index
         (InterviewPanel.chartData (fun d => d) InterviewPanel.sample_store
                                   InterviewPanel.sample_interviews))
  /\ Forall (fun p => 1 <= InterviewPanel.index p <= 4)
       (InterviewPanel.chartData (fun d => d) InterviewPanel.sample_store
                                 InterviewPanel.sample_interviews).
Proof.
  apply (chart_indexes_increase
           (fun d => d) InterviewPanel.sample_store
           InterviewPanel.sample_interviews).
  repeat (constructor; [cbn; intuition discriminate|]). constructor.
Defined.

(* ================================================================== *)
(** ** Every complete line, every payload                              *)
(* ================================================================== *)

(** C5. Every complete line of a stream, however the stream goes on or
    closes, is handled by the frame rule: when it starts with the literal
    [data:], the prefix is removed, the remainder is trimmed, and
    [onMessage] receives the result exactly when it is not empty.  The
    calls are made in the order of the lines and before the terminal
    callback. *)
Theorem complete_lines_follow_the_frame_rule
        (getErrorMessage : thrown -> jsstring) (r : response)
        (chunks : list (list byte)) (close : reader)
        (lines : list jsstring) (rest : jsstring) :
  ok r = true ->
  body r = Some (reader_of chunks close) ->
  close = EndOfStream \/ (exists e, close = ReadFailure e) ->
  Forall (fun l => ~ In LF l) lines ->
  ~ In LF rest ->
  snd (decode create (List.concat chunks)) = lines_text lines ++ rest ->
  callbacks (queryKnowledgeBaseStream getErrorMessage (FetchResolves r))
  = map OnMessage (payloads lines)
    ++ match close with
       | ReadFailure e => [OnError (getErrorMessage e)]
       | _ => OnComplete :: map OnMessage (payloads [rest])
       end.
Proof.
  intros Hok Hb Hc Hl Hr Ht.
  rewrite (query_stream _ r _ Hok Hb).
  rewrite stream_text_chunks, stream_failure_chunks.
  assert (Hs : stream_text (fst (decode create (List.concat chunks))) close
               = []) by (destruct Hc as [->|[e ->]]; reflexivity).
  rewrite Hs, app_nil_r, Ht.
  destruct (lines_text_split lines rest Hl Hr) as [-> ->].
  destruct Hc as [->|[e ->]]; reflexivity.
Qed.

Lemma complete_lines_follow_the_frame_rule_witness :
  callbacks
    (queryKnowledgeBaseStream id_message
       (streaming (reader_of sample_frames EndOfStream)))
  = [OnMessage (str "hello"); OnMessage (str "world"); OnComplete]
  /\ callbacks
       (queryKnowledgeBaseStream id_message
          (streaming (reader_of sample_open_line EndOfStream)))
     = [OnMessage (str "a"); OnComplete; OnMessage (str "b")]
  /\ callbacks
       (queryKnowledgeBaseStream id_message
          (streaming (reader_of sample_open_line (ReadFailure network_error))))
     = [OnMessage (str "a"); OnError (str "network error")].
Proof.
  split; [|split].
  - apply (complete_lines_follow_the_frame_rule id_message
             (streaming_response (reader_of sample_frames EndOfStream))
             sample_frames EndOfStream
             [str "data: hello"; str "data: world"; str "data:   ";
              str ": note"] []).
    + reflexivity.
    + reflexivity.
    + left. reflexivity.
    + no_LF. constructor.
    + intros [].
    + reflexivity.
  - apply (complete_lines_follow_the_frame_rule id_message
             (streaming_response (reader_of sample_open_line EndOfStream))
             sample_open_line EndOfStream [str "data: a"] (str "data: b")).
    + reflexivity.
    + reflexivity.
    + left. reflexivity.
    + no_LF. constructor.
    + intros H; cbn in H; intuition discriminate.
    + reflexivity.
  - apply (complete_lines_follow_the_frame_rule id_message
             (streaming_response
                (reader_of sample_open_line (ReadFailure network_error)))
             sample_open_line (ReadFailure network_error)
             [str "data: a"] (str "data: b")).
    + reflexivity.
    + reflexivity.
    + right. exists network_error. reflexivity.
    + no_LF. constructor.
    + intros H; cbn in H; intuition discriminate.
    + reflexivity.
Defined.

(** The payloads of some of the lines of a text are payloads of that
    text. *)
Lemma payloads_of_lines (all lines : list jsstring) :
  incl lines all ->
  Forall (fun l => ~ In LF l) lines ->
  Forall (is_payload_of all) (payloads lines).
Proof.
  intros Hin Hl. induction Hl as [|l ls Hl Hls IH]; [constructor|].
  change (l :: ls) with ([l] ++ ls). rewrite payloads_app.
  apply Forall_app. split.
  2:{ apply IH. intros x Hx. apply Hin. right. exact Hx. }
  rewrite payloads_one.
  destruct (startsWith data_prefix l) eqn:Hd; [|constructor].
  destruct (truthy (trim (substring 5 l))) eqn:Ht; [|constructor].
  constructor; [|constructor].
  pose proof (trim_leading (substring 5 l)) as Hlead.
  pose proof (trim_trailing (substring 5 l)) as Htrail.
  split; [|split; [|split; [|split]]].
  - intros E. rewrite E in Ht. discriminate.
  - intros Hx. apply trim_incl, skipn_incl in Hx. contradiction.
  - intros c Hc. destruct (trim (substring 5 l)); [discriminate|].
    injection Hc as <-. exact Hlead.
  - intros c Hc. destruct (rev (trim (substring 5 l))); [discriminate|].
    injection Hc as <-. exact Htrail.
  - exists l. split; [|split]; [|exact Hd|reflexivity].
    apply Hin. left. reflexivity.
Qed.

Lemma complete_lines_incl (text : jsstring) :
  incl (complete_lines text) (split text).
Proof.
  unfold complete_lines. intros x Hx.
  rewrite (app_removelast_last [] (split_not_nil text)).
  apply in_or_app. left. exact Hx.
Qed.

(** C10. Every string handed to [onMessage] is non-empty, contains no
    newline, neither begins nor ends with whitespace, and is what remains
    of one of the lines of the stream, a line that starts with [data:],
    once its five-unit prefix is removed and the rest is trimmed. *)
Theorem onMessage_payloads_come_from_data_lines
        (getErrorMessage : thrown -> jsstring) (net : fetch_outcome) :
  Forall (is_payload_of (stream_lines net))
         (messages (queryKnowledgeBaseStream getErrorMessage net)).
Proof.
  destruct net as [e|r]; [constructor|].
  destruct (ok r) eqn:Hok.
  2:{ rewrite query_failed_status by assumption. constructor. }
  destruct (body r) as [rd|] eqn:Hb.
  2:{ rewrite query_no_body by assumption. constructor. }
  rewrite <- messages_callbacks, (query_stream _ r rd Hok Hb).
  cbn [stream_lines]. rewrite Hb.
  rewrite messages_app, messages_map. apply Forall_app. split.
  - apply payloads_of_lines;
      [apply complete_lines_incl|apply complete_lines_no_LF].
  - destruct (stream_failure rd); [constructor|].
    cbn [messages]. rewrite messages_map. apply payloads_of_lines.
    + intros x [<-|[]]. apply last_In, split_not_nil.
    + constructor; [apply residual_no_LF|constructor].
Qed.

(* ================================================================== *)
(** ** Callbacks that may throw: the terminal callbacks                *)
(* ================================================================== *)

Lemma throwing_bind_ret {A B} (a : A) (k : A -> Throwing.M B)
      (h : list event) :
  Throwing.bind (Throwing.ret a) k h = k a h.
Proof.
  unfold Throwing.bind, Throwing.ret. rewrite app_nil_r.
  destruct (k a h). reflexivity.
Qed.

Lemma throwing_bind_fst {A B} (m : Throwing.M A) (k : A -> Throwing.M B)
      (h : list event) :
  fst (Throwing.bind m k h)
  = fst (m h)
    ++ match snd (m h) with
       | Normal a => fst (k a (h ++ fst (m h)))
       | Throw _ => []
       end.
Proof.
  unfold Throwing.bind. destruct (m h) as [t [a|e]]; cbn [fst snd].
  - destruct (k a (h ++ t)). reflexivity.
  - rewrite app_nil_r. reflexivity.
Qed.

Lemma throwing_bind_snd {A B} (m : Throwing.M A) (k : A -> Throwing.M B)
      (h : list event) :
  snd (Throwing.bind m k h)
  = match snd (m h) with
    | Normal a => snd (k a (h ++ fst (m h)))
    | Throw e => Throw e
    end.
Proof.
  unfold Throwing.bind. destruct (m h) as [t [a|e]]; cbn [fst snd];
    [destruct (k a (h ++ t))|]; reflexivity.
Qed.


Section ThrowingCallbacks.

Variable cb : Throwing.callbacks.

(** *** When the callbacks return, the two models agree *)

Hypothesis onMessage_returns : forall h m, Throwing.onMessage cb h m = None.
Hypothesis onComplete_returns : forall h, Throwing.onComplete cb h = None.







End ThrowingCallbacks.

(** *** Whatever the callbacks do *)

Section AnyCallbacks.

Variable cb : Throwing.callbacks.

Lemma throwing_try_block_cases (net : fetch_outcome) (h : list event) :
  Throwing.try_block cb net h
  = match net with
    | FetchRejects e => ([], Throw e)
    | FetchResolves r =>
        if ok r then
          match body r with
          | Some rd =>
              Throwing.bind (Throwing.read_loop cb rd loop_init)
                            (Throwing.flush cb) h
          | None => ([], Throw (ErrorObject no_response_stream))
          end
        else ([], Throw (ErrorObject (request_failed (status r))))
    end.
Proof.
  destruct net as [e|r]; [reflexivity|].
  unfold Throwing.try_block. cbn [Throwing.await_fetch].
  rewrite throwing_bind_ret. destruct (ok r); cbn [negb].
  - rewrite throwing_bind_ret. destruct (body r) as [rd|].
    + rewrite throwing_bind_ret. reflexivity.
    + reflexivity.
  - assert (Hinner :
              Throwing.try_catch
                (Throwing.bind (Throwing.await_json (json_body r))
                   (fun errorData =>
                      if json_truthy (Some errorData)
                         && json_truthy (get_message errorData)
                      then
                        match get_message errorData with
                        | Some m => Throwing.throw (ErrorObject (to_string m))
                        | None => Throwing.throw (ErrorObject [])
                        end
                      else Throwing.ret tt))
                (fun _ => Throwing.ret tt) h
              = ([], Normal tt)).
    { unfold Throwing.try_catch.
      destruct (json_body r) as [e|v]; [reflexivity|].
      cbn [Throwing.await_json]. rewrite throwing_bind_ret.
      destruct (json_truthy (Some v) && json_truthy (get_message v));
        [destruct (get_message v)|]; reflexivity. }
    unfold Throwing.bind at 1. unfold Throwing.bind at 1.
    rewrite Hinner. reflexivity.
Qed.

Lemma throwing_dispatch_no_terminal (line : jsstring) (h : list event) :
  count is_error (fst (Throwing.dispatch cb line h)) = 0%nat
  /\ count is_complete (fst (Throwing.dispatch cb line h)) = 0%nat.
Proof.
  unfold Throwing.dispatch.
  destruct (startsWith data_prefix line); [|split; reflexivity].
  cbv zeta. destruct (truthy (trim (substring 5 line))); split; reflexivity.
Qed.

Lemma throwing_flush_no_terminal (buffer : jsstring) (h : list event) :
  count is_error (fst (Throwing.flush cb buffer h)) = 0%nat
  /\ count is_complete (fst (Throwing.flush cb buffer h)) = 0%nat.
Proof.
  unfold Throwing.flush.
  destruct (truthy (trim buffer)); [|split; reflexivity].
  destruct (startsWith data_prefix buffer); [|split; reflexivity].
  cbv zeta. destruct (truthy (trim (substring 5 buffer))); split; reflexivity.
Qed.

Lemma throwing_for_of_no_terminal (lines : list jsstring) (h : list event) :
  count is_error (fst (Throwing.for_of lines (Throwing.dispatch cb) h))
  = 0%nat
  /\ count is_complete (fst (Throwing.for_of lines (Throwing.dispatch cb) h))
     = 0%nat.
Proof.
  revert h. induction lines as [|l ls IH]; intros h; [split; reflexivity|].
  cbn [Throwing.for_of]. rewrite throwing_bind_fst, !count_app.
  destruct (throwing_dispatch_no_terminal l h) as [-> ->].
  destruct (snd (Throwing.dispatch cb l h)); [apply IH|split; reflexivity].
Qed.

(** The loop never calls [onError]; it calls [onComplete] at most once,
    and once exactly when it ends normally. *)
Lemma throwing_read_loop_terminals (rd : reader) (st : loop_state)
      (h : list event) :
  count is_error (fst (Throwing.read_loop cb rd st h)) = 0%nat
  /\ (count is_complete (fst (Throwing.read_loop cb rd st h)) <= 1)%nat
  /\ forall b, snd (Throwing.read_loop cb rd st h) = Normal b ->
               count is_complete (fst (Throwing.read_loop cb rd st h))
               = 1%nat.
Proof.
  revert st h. induction rd as [value rest IH| |e]; intros st h;
    cbn [Throwing.read_loop].
  - rewrite throwing_bind_fst, throwing_bind_snd.
    cbn [Throwing.read fst snd]. destruct (receive st value) as [st' lines].
    rewrite throwing_bind_fst, throwing_bind_snd, !count_app.
    destruct (throwing_for_of_no_terminal lines (h ++ [ReaderRead]))
      as [-> ->].
    destruct (snd (Throwing.for_of lines (Throwing.dispatch cb)
                     (h ++ [ReaderRead]))) as [[]|e].
    + destruct (IH st' ((h ++ [ReaderRead])
                        ++ fst (Throwing.for_of lines (Throwing.dispatch cb)
                                  (h ++ [ReaderRead]))))
        as (He & Hc & Hn).
      rewrite He. cbn [count filter is_error is_complete List.length plus].
      split; [reflexivity|]. split; [exact Hc|exact Hn].
    + cbn. split; [reflexivity|]. split; [lia|discriminate].
  - rewrite throwing_bind_fst, throwing_bind_snd.
    cbn [Throwing.read fst snd].
    rewrite throwing_bind_fst, throwing_bind_snd.
    unfold Throwing.call. cbn [fst snd].
    destruct (Throwing.onComplete cb (h ++ [ReaderRead])); cbn.
    + split; [reflexivity|]. split; [lia|discriminate].
    + split; [reflexivity|]. split; [lia|reflexivity].
  - cbn. split; [reflexivity|]. split; [lia|discriminate].
Qed.

Lemma throwing_try_block_terminals (net : fetch_outcome) (h : list event) :
  count is_error (fst (Throwing.try_block cb net h)) = 0%nat
  /\ (count is_complete (fst (Throwing.try_block cb net h)) <= 1)%nat
  /\ (snd (Throwing.try_block cb net h) = Normal tt ->
      count is_complete (fst (Throwing.try_block cb net h)) = 1%nat).
Proof.
  rewrite throwing_try_block_cases.
  destruct net as [e|r].
  { cbn. split; [reflexivity|]. split; [lia|discriminate]. }
  destruct (ok r).
  2:{ cbn. split; [reflexivity|]. split; [lia|discriminate]. }
  destruct (body r) as [rd|].
  2:{ cbn. split; [reflexivity|]. split; [lia|discriminate]. }
  rewrite throwing_bind_fst, throwing_bind_snd, !count_app.
  destruct (throwing_read_loop_terminals rd loop_init h) as (He & Hc & Hn).
  rewrite He.
  destruct (snd (Throwing.read_loop cb rd loop_init h)) as [b|e] eqn:E.
  - destruct (throwing_flush_no_terminal
                b (h ++ fst (Throwing.read_loop cb rd loop_init h)))
      as [-> ->].
    rewrite (Hn b eq_refl). split; [reflexivity|]. split; [lia|reflexivity].
  - cbn [count filter List.length]. rewrite !Nat.add_0_r.
    split; [reflexivity|]. split; [exact Hc|discriminate].
Qed.

End AnyCallbacks.




Lemma throwing_query_trace (cb : Throwing.callbacks)
      (getErrorMessage : thrown -> jsstring) (net : fetch_outcome) :
  Throwing.queryKnowledgeBaseStream cb getErrorMessage net
  = fst (Throwing.try_block cb net [])
    ++ match snd (Throwing.try_block cb net []) with
       | Normal _ => []
       | Throw e => [OnError (getErrorMessage e)]
       end.
Proof.
  unfold Throwing.queryKnowledgeBaseStream, Throwing.try_catch.
  destruct (Throwing.try_block cb net []) as [t [a|e]]; cbn [fst snd].
  - rewrite app_nil_r. reflexivity.
  - reflexivity.
Qed.

(** X12. Whatever the callbacks do, throwing or not: at least one
    terminal callback is invoked, [onError] is invoked at most once and
    nothing happens after it, and [onComplete] is invoked at most once. *)
Theorem terminal_callbacks_whatever_the_callbacks_do
        (cb : Throwing.callbacks) (getErrorMessage : thrown -> jsstring)
        (net : fetch_outcome) :
  (1 <= count is_complete
          (Throwing.queryKnowledgeBaseStream cb getErrorMessage net)
        + count is_error
            (Throwing.queryKnowledgeBaseStream cb getErrorMessage net))%nat
  /\ (count is_error
        (Throwing.queryKnowledgeBaseStream cb getErrorMessage net) <= 1)%nat
  /\ (count is_complete
        (Throwing.queryKnowledgeBaseStream cb getErrorMessage net) <= 1)%nat
  /\ after_error (Throwing.queryKnowledgeBaseStream cb getErrorMessage net)
     = [].
Proof.
  rewrite throwing_query_trace.
  destruct (throwing_try_block_terminals cb net []) as (He & Hc & Hn).
  rewrite !count_app, He, after_error_app by assumption.
  destruct (snd (Throwing.try_block cb net [])) as [[]|e].
  - rewrite (Hn eq_refl). cbn. repeat split; lia.
  - cbn [count filter is_error is_complete List.length after_error].
    repeat split; lia.
Qed.

(* ================================================================== *)
(** ** The delete handler of the panel                                 *)
(* ================================================================== *)

(** X10. Confirming a deletion never rejects.  Without a pending
    confirmation it does nothing.  Otherwise the delete request is sent
    once and the handler always ends with the spinner cleared.  When the
    request succeeds the parent's callback is called once, and the dialog
    is closed if that callback returns; if the callback throws, or if the
    request fails, what was thrown is shown in one alert and the dialog
    stays open; when the request fails the parent is not told. *)
Theorem delete_confirmation_settles_the_panel
        (api parent : jsstring -> option InterviewPanel.caught)
        (st : InterviewPanel.panel_state) :
  let run := InterviewPanel.handleDeleteConfirm
               api parent (InterviewPanel.deleteConfirm st) in
  let st' := InterviewPanel.after st (fst run) in
  snd run = InterviewPanel.Done tt
  /\ (InterviewPanel.deleteConfirm st = None -> fst run = [])
  /\ forall session,
       InterviewPanel.deleteConfirm st = Some session ->
       InterviewPanel.deletingSessionId st' = None
       /\ filter InterviewPanel.is_request (fst run)
          = [InterviewPanel.DeleteInterview session]
       /\ match api session, parent session with
          | None, None =>
              InterviewPanel.deleteConfirm st' = None
              /\ filter InterviewPanel.is_deleted_callback (fst run)
                 = [InterviewPanel.OnDeleteInterview session]
              /\ filter InterviewPanel.is_alert (fst run) = []
          | None, Some err =>
              InterviewPanel.deleteConfirm st' = Some session
              /\ filter InterviewPanel.is_deleted_callback (fst run)
                 = [InterviewPanel.OnDeleteInterview session]
              /\ filter InterviewPanel.is_alert (fst run)
                 = [InterviewPanel.Alert (InterviewPanel.alert_text err)]
          | Some err, _ =>
              InterviewPanel.deleteConfirm st' = Some session
              /\ filter InterviewPanel.is_deleted_callback (fst run) = []
              /\ filter InterviewPanel.is_alert (fst run)
                 = [InterviewPanel.Alert (InterviewPanel.alert_text err)]
          end.
Proof.
  cbv zeta.
  destruct st as [deleting [session|]]; cbn [InterviewPanel.deleteConfirm].
  - unfold InterviewPanel.handleDeleteConfirm, InterviewPanel.await_delete,
      InterviewPanel.call_parent.
    destruct (api session) as [err|] eqn:E;
      [|destruct (parent session) as [err|] eqn:E'];
      (split; [reflexivity|]); (split; [discriminate|]);
      intros s Hs; injection Hs as <-; rewrite E, ?E'; cbn; repeat split.
  - split; [reflexivity|]. split; [reflexivity|]. discriminate.
Qed.

(* ================================================================== *)
(** ** Properties of the endpoint addresses                            *)
(* ================================================================== *)

Lemma digits_inj (u v : Decimal.uint) : digits u = digits v -> u = v.
Proof.
  revert v. induction u as [|u IH|u IH|u IH|u IH|u IH|u IH|u IH|u IH|u IH|u IH];
    intros [|v|v|v|v|v|v|v|v|v|v] H; cbn [digits] in H;
    try discriminate; try reflexivity;
    injection H as H; f_equal; apply IH; exact H.
Qed.

Lemma digits_head (u : Decimal.uint) :
  match digits u with
  | c :: _ => (48 <=? c) && (c <=? 57) = true
  | [] => True
  end.
Proof. destruct u; cbn [digits]; try exact I; reflexivity. Qed.

Lemma number_to_string_inj (n m : N) :
  number_to_string n = number_to_string m -> n = m.
Proof.
  intros H. apply DecimalN.Unsigned.to_uint_inj, digits_inj. exact H.
Qed.

Lemma int_to_string_head (n : Z) :
  match int_to_string n with
  | c :: _ => ((48 <=? c) && (c <=? 57)) || (c =? 45) = true
  | [] => True
  end.
Proof.
  assert (H : forall m, match number_to_string m with
                        | c :: _ => ((48 <=? c) && (c <=? 57)) || (c =? 45)
                                    = true
                        | [] => True
                        end).
  { intros m. unfold number_to_string.
    pose proof (digits_head (N.to_uint m)) as Hd.
    destruct (digits (N.to_uint m)); [exact I|]. rewrite Hd. reflexivity. }
  destruct n; cbn [int_to_string]; [apply H|apply H|reflexivity].
Qed.

Lemma int_to_string_inj (a b : Z) : int_to_string a = int_to_string b -> a = b.
Proof.
  assert (Hneg : forall p m, 45 :: number_to_string (Npos p)
                             <> number_to_string m).
  { intros p m H. unfold number_to_string in H.
    pose proof (digits_head (N.to_uint m)) as Hd. rewrite <- H in Hd.
    discriminate Hd. }
  destruct a as [|p|p], b as [|q|q]; cbn [int_to_string Z.to_N]; intros H;
    try reflexivity;
    try (apply number_to_string_inj in H; congruence);
    try (exfalso; apply (Hneg _ _ H));
    try (exfalso; symmetry in H; apply (Hneg _ _ H)).
  injection H as H. apply number_to_string_inj in H. congruence.
Qed.

(** X11. For ids that are safe integers, negative ones included, the
    address of a knowledge-base item determines the id: two different ids
    never share an address, and no id yields the address of the list,
    upload, query or streaming endpoint. *)
Theorem item_paths_are_unambiguous (id id' : Z) (p p' : jsstring) :
  KnowledgeBaseApi.item_path id = Some p ->
  KnowledgeBaseApi.item_path id' = Some p' ->
  id <> id' ->
  p <> p'
  /\ ~ In p [KnowledgeBaseApi.list_path; KnowledgeBaseApi.upload_path;
             KnowledgeBaseApi.query_path; KnowledgeBaseApi.stream_path].
Proof.
  unfold KnowledgeBaseApi.item_path. intros Hp Hp' Hne.
  destruct (Z.abs id <=? KnowledgeBaseApi.max_safe_integer); [|discriminate].
  destruct (Z.abs id' <=? KnowledgeBaseApi.max_safe_integer); [|discriminate].
  assert (E : p = str "/api/knowledgebase/" ++ int_to_string id)
    by congruence.
  assert (E' : p' = str "/api/knowledgebase/" ++ int_to_string id')
    by congruence.
  subst p p'. clear Hp Hp'. split.
  - intros H. apply app_inv_head in H. apply int_to_string_inj in H.
    contradiction.
  - intros Hin. cbn [In] in Hin.
    destruct Hin as [H|[H|[H|[H|[]]]]];
      [ change KnowledgeBaseApi.list_path
          with (str "/api/knowledgebase/" ++ str "list") in H
      | change KnowledgeBaseApi.upload_path
          with (str "/api/knowledgebase/" ++ str "upload") in H
      | change KnowledgeBaseApi.query_path
          with (str "/api/knowledgebase/" ++ str "query") in H
      | change KnowledgeBaseApi.stream_path
          with (str "/api/knowledgebase/" ++ str "query/stream") in H ];
      apply app_inv_head in H;
      pose proof (int_to_string_head id) as Hd;
      rewrite <- H in Hd; vm_compute in Hd; discriminate Hd.
Qed.

Lemma item_paths_are_unambiguous_witness :
  str "/api/knowledgebase/42" <> str "/api/knowledgebase/-42"
  /\ ~ In (str "/api/knowledgebase/42")
         [KnowledgeBaseApi.list_path; KnowledgeBaseApi.upload_path;
          KnowledgeBaseApi.query_path; KnowledgeBaseApi.stream_path].
Proof.
  apply (item_paths_are_unambiguous 42 (-42)).
  - reflexivity.
  - reflexivity.
  - discriminate.
Defined.

(** An [onMessage] that throws on the line dispatched after [onComplete]
    has the same effect: both terminal callbacks are invoked. *)
Example throwing_late_onMessage :
  Throwing.queryKnowledgeBaseStream Throwing.late_message_throws id_message
    (streaming (reader_of sample_open_line EndOfStream))
  = [ReaderRead; OnMessage (str "a"); ReaderRead; ReaderRead; OnComplete;
     OnMessage (str "b"); OnError (str "late")].
Proof. reflexivity. Qed.
